(** * Fireplexity: the search route and the environment check

    A shallow embedding of the two route handlers of the repository:
    - [POST] of the search route (normalisation of the SearxNG payloads,
      Firecrawl enrichment, context building, the event stream, the
      follow-up questions);
    - [GET] of the [check-env] route.

    JavaScript values are modelled by the type [value]; strings are
    sequences of UTF-16 code units; an exception is a value of type
    [thrown] carried by the [result] monad; the writes of the stream
    writer and the calls to the outside services form a trace of
    [action]s.

    The stream callback is modelled from its first write on: the request
    has passed the checks of lines 11-58, its query is a string and its
    [messages] are an array.
    What can then throw is a search, a property read on a payload, the
    rendering of a payload value as text, a scrape, the relevance
    selector, the conversion of the earlier messages, the answer
    generation, the conversation preview and the follow-up generation;
    what the route does not compute itself is a field of [World] or a
    parameter of the route. *)

From stdpp Require Import base option list strings gmap.
From Stdlib Require Import ZArith Lia Ascii.
From Stdlib Require QArith Qround DecimalNat.

Set Warnings "-register-all".

Local Open Scope Z_scope.
Local Open Scope string_scope.
Local Open Scope list_scope.
Local Open Scope nat_scope.

(** ** Strings *)

Module JsString.

(** A UTF-16 code unit; a JavaScript string is a sequence of them and
    its [length] counts them. *)
Definition code_unit := N.
Definition t := list code_unit.

(** A literal of the source text. *)
Definition lit (s : string) : t :=
  (λ a, N_of_ascii a) <$> String.list_ascii_of_string s.

Definition LF : code_unit := 10%N.
Definition SPACE : code_unit := 32%N.

Definition eqb (a b : t) : bool := bool_decide (a = b).

Fixpoint uint_units (d : Decimal.uint) : t :=
  match d with
  | Decimal.Nil => []
  | Decimal.D0 r => 48%N :: uint_units r
  | Decimal.D1 r => 49%N :: uint_units r
  | Decimal.D2 r => 50%N :: uint_units r
  | Decimal.D3 r => 51%N :: uint_units r
  | Decimal.D4 r => 52%N :: uint_units r
  | Decimal.D5 r => 53%N :: uint_units r
  | Decimal.D6 r => 54%N :: uint_units r
  | Decimal.D7 r => 55%N :: uint_units r
  | Decimal.D8 r => 56%N :: uint_units r
  | Decimal.D9 r => 57%N :: uint_units r
  end.

(** Decimal rendering of an array index or count. *)
Definition of_nat (n : nat) : t := uint_units (Nat.to_uint n).

(** [Array.prototype.join] on strings. *)
Fixpoint join (sep : t) (parts : list t) : t :=
  match parts with
  | [] => []
  | [p] => p
  | p :: rest => p ++ sep ++ join sep rest
  end.

(** [String.prototype.split] with a one-unit separator: the pieces
    between the occurrences of [sep]; always at least one piece. *)
Fixpoint split (sep : code_unit) (s : t) : list t :=
  match s with
  | [] => [[]]
  | c :: rest =>
      if (c =? sep)%N then [] :: split sep rest
      else match split sep rest with
           | [] => [[c]]
           | p :: ps => (c :: p) :: ps
           end
  end.

(** White space and line terminators of ECMAScript, the units that
    [String.prototype.trim] removes. *)
Definition is_white_space (c : code_unit) : bool :=
  bool_decide (c ∈ [9; 10; 11; 12; 13; 32; 160; 5760; 8232; 8233; 8239;
                    8287; 12288; 65279]%N)
  || ((8192 <=? c)%N && (c <=? 8202)%N).

Fixpoint trim_start (s : t) : t :=
  match s with
  | [] => []
  | c :: rest => if is_white_space c then trim_start rest else s
  end.

Definition trim_end (s : t) : t := reverse (trim_start (reverse s)).

Definition trim (s : t) : t := trim_end (trim_start s).

(** The units of a decimal numeral. *)
Definition is_digit (c : code_unit) : Prop := (48 ≤ c ≤ 57)%N.

Fixpoint starts_with (p s : t) : bool :=
  match p, s with
  | [], _ => true
  | a :: p', b :: s' => (a =? b)%N && starts_with p' s'
  | _ :: _, [] => false
  end.

End JsString.

Abbreviation jsstring := JsString.t.
Abbreviation lit := JsString.lit.

(** ** Values, exceptions and results *)

(** The values the route reads out of parsed JSON.  A number is held by
    the text that [Number::toString] gives for it, ["0"] for both zeros:
    the route tests numbers for zero, compares them with [===], renders
    them in a template and passes them on, and the text decides all
    four.  [VNative] is a built-in method reached through a
    prototype. *)
Inductive value :=
  | VUndefined
  | VNull
  | VBool (b : bool)
  | VNum (shown : jsstring)
  | VStr (s : jsstring)
  | VArr (items : list value)
  | VObj (props : list (string * value))
  | VNative (name : string).

(** What a [catch] clause can inspect of the value it receives:
    [instanceof Error], [.message], and the [statusCode] and [status]
    properties when the value has them. *)
Record thrown := Thrown {
  instance_of_Error : bool;
  message : jsstring;
  statusCode : option Z;
  status : option Z
}.

Inductive result (A : Type) :=
  | Ok (a : A)
  | Throw (e : thrown).
Arguments Ok {A} a.
Arguments Throw {A} e.

#[global] Instance result_ret : MRet result := @Ok.
#[global] Instance result_bind : MBind result := λ A B f m,
  match m with Ok a => f a | Throw e => Throw e end.
#[global] Instance result_fmap : FMap result := λ A B f m,
  match m with Ok a => Ok (f a) | Throw e => Throw e end.

(** [promise.catch(() => fallback)] and [try { m } catch { fallback }]. *)
Definition recover {A} (m : result A) (fallback : A) : A :=
  match m with Ok a => a | Throw _ => fallback end.

Definition new_Error (msg : jsstring) : thrown :=
  Thrown true msg None None.

(** The [TypeError] of a property read on [null] or [undefined]. *)
Definition TypeError_read (of_what key : string) : thrown :=
  new_Error (lit "Cannot read properties of " ++ lit of_what ++
             lit " (reading '" ++ lit key ++ lit "')").

Definition truthy (v : value) : bool :=
  match v with
  | VUndefined | VNull => false
  | VBool b => b
  | VNum shown => negb (bool_decide (shown = lit "0"))
  | VStr s => negb (bool_decide (s = []))
  | VArr _ | VObj _ | VNative _ => true
  end.

Definition nullish (v : value) : bool :=
  match v with VUndefined | VNull => true | _ => false end.

Definition isArray (v : value) : bool :=
  match v with VArr _ => true | _ => false end.

Definition elements (v : value) : list value :=
  match v with VArr l => l | _ => [] end.

Fixpoint own (props : list (string * value)) (k : string) : value :=
  match props with
  | [] => VUndefined
  | (k', v) :: rest => if bool_decide (k' = k) then v else own rest k
  end.

(** [v.k].  Of the property names the route reads, only [link] exists on
    a prototype of a parsed JSON value ([String.prototype.link]). *)
Definition get (v : value) (k : string) : result value :=
  match v with
  | VUndefined => Throw (TypeError_read "undefined" k)
  | VNull => Throw (TypeError_read "null" k)
  | VObj props => Ok (own props k)
  | VStr _ => Ok (if bool_decide (k = "link") then VNative "link" else VUndefined)
  | _ => Ok VUndefined
  end.

(** [v?.k] *)
Definition get_opt (v : value) (k : string) : value :=
  recover (get v k) VUndefined.

(** [v?.[0]] *)
Definition first_opt (v : value) : value :=
  match v with
  | VArr (x :: _) => x
  | VStr (c :: _) => VStr [c]
  | VObj props => own props "0"
  | _ => VUndefined
  end.

(** [a || b] on values already computed. *)
Definition or (a b : value) : value := if truthy a then a else b.

(** [a || b] where [b] is evaluated only when [a] is falsy. *)
Definition orM (a b : result value) : result value :=
  x ← a; if truthy x then Ok x else b.

Infix "|||" := orM (at level 50, left associativity).

(** The [TypeError] of [ToPrimitive] on an object without a callable
    [toString] and [valueOf]. *)
Definition TypeError_primitive : thrown :=
  new_Error (lit "Cannot convert object to primitive value").

(** [String(v)], as a template literal and [Array.prototype.join] apply
    it.  An object of a parsed payload inherits [toString] unless it has
    a key of that name, whose value is never callable: the conversion
    then throws.  An array is joined by commas, [null] and [undefined]
    giving the empty string. *)
Fixpoint to_string (v : value) : result jsstring :=
  match v with
  | VUndefined => Ok (lit "undefined")
  | VNull => Ok (lit "null")
  | VBool true => Ok (lit "true")
  | VBool false => Ok (lit "false")
  | VNum shown => Ok shown
  | VStr s => Ok s
  | VArr l =>
      JsString.join (lit ",") <$>
        (fix each (l : list value) : result (list jsstring) :=
           match l with
           | [] => Ok []
           | x :: r =>
               s ← (if nullish x then Ok [] else to_string x);
               rest ← each r;
               Ok (s :: rest)
           end) l
  | VObj props =>
      if bool_decide ("toString" ∈ props.*1) then Throw TypeError_primitive
      else Ok (lit "[object Object]")
  | VNative name => Ok (lit "function " ++ lit name ++ lit "() { [native code] }")
  end.

(** [values.join(sep)] *)
Definition join_values (sep : jsstring) (l : list value) : result jsstring :=
  JsString.join sep <$> mapM (λ x, if nullish x then Ok [] else to_string x) l.

(** [a === b].  Arrays and objects are equal only to themselves, and no
    two values of a parsed payload share a reference: the caller compares
    positions for that case. *)
Definition strict_equals (a b : value) : bool :=
  match a, b with
  | VUndefined, VUndefined | VNull, VNull => true
  | VBool x, VBool y => bool_decide (x = y)
  | VNum x, VNum y => JsString.eqb x y
  | VStr x, VStr y => JsString.eqb x y
  | VNative x, VNative y => bool_decide (x = y)
  | _, _ => false
  end.

Definition TypeError_not_function (what : string) : thrown :=
  new_Error (lit what ++ lit " is not a function").

(** [parts.filter((p) => p.type === 'text').map((p) => p.text).join(' ')] *)
Definition text_of_parts (parts : list value) : result jsstring :=
  flagged ← mapM (λ p, t ← get p "type";
                       Ok (p, strict_equals t (VStr (lit "text")))) parts;
  let textParts := fst <$> filter (λ pf, pf.2 = true) flagged in
  texts ← mapM (λ p, get p "text") textParts;
  join_values (lit " ") texts.

(** ** The normalised collections *)

Record Source := {
  s_url : value;
  s_title : value;
  s_description : value;
  s_content : value;
  s_markdown : value;
  s_favicon : value;
  s_image : value;
  s_siteName : value
}.

Record NewsItem := {
  n_url : value;
  n_title : value;
  n_description : value;
  n_publishedDate : value;
  n_source : value;
  n_image : value
}.

Record ImageItem := {
  i_url : value;
  i_title : value;
  i_thumbnail : value;
  i_source : value;
  i_width : value;
  i_height : value;
  i_position : value
}.

(** The payload of a [data-sources] part. *)
Record SearchBundle := {
  sources : list Source;
  newsResults : list NewsItem;
  imageResults : list ImageItem
}.

(** [Number(...)] of the scrape limit: not a number, an infinity, or a
    finite number. *)
Inductive number :=
  | NaN
  | Infinity (negative : bool)
  | Finite (q : QArith_base.Q).

(** ** The outside world and the event stream *)

(** What the route uses of a [fetch] response. *)
Record Response := {
  ok : bool;
  statusText : jsstring;
  json : result value          (* the outcome of [response.json()] *)
}.

Inductive category := general | news | images.

#[global] Instance category_eq_dec : EqDecision category.
Proof. solve_decision. Defined.

(** The value one scrape callback resolves to. *)
Record Scraped := {
  sc_url : value;
  sc_markdown : value;
  sc_content : value
}.

(** The parts the route writes, named after their [type] tags;
    [text_delta] is a chunk of the merged answer stream. *)
Inductive event :=
  | data_status (id : string) (message : string)
  | data_sources (data : SearchBundle)
  | data_ticker (symbol : value)
  | text_delta (delta : jsstring)
  | data_followup (questions : list jsstring)
  | data_error (error : jsstring) (suggestion : option jsstring)
               (statusCode : option Z).

(** The effects of one request, in the order they happen. *)
Inductive action :=
  | Write (e : event)                       (* a part on the stream *)
  | FetchSearch (c : category)              (* a SearxNG search is started *)
  | FetchScrape (url : value)               (* a Firecrawl scrape is started *)
  | StreamText (context : jsstring)         (* the answer generation *)
  | GenerateText (fullAnswer : jsstring).   (* the follow-up generation *)

(** Everything the route reads from outside while it handles one
    request. *)
Record World := {
  query : jsstring;
  messages : list value;                             (* [body.messages || []] *)
  env : gmap string jsstring;                        (* [process.env] *)
  searx : category → result Response;                (* the three searches *)
  firecrawl : nat → result Response;                 (* the scrape of the i-th target *)
  convertToModelMessages : list value → result (list value);   (* of the SDK *)
  answer_deltas : jsstring → list jsstring;          (* chunks streamed for a context *)
  answer_text : jsstring → result jsstring;          (* [await result.text] *)
  followUp_text : jsstring → result jsstring         (* [generateText(...)] then [.text] *)
}.

(** A computation that writes to the trace and may throw. *)
Definition prog (A : Type) : Type := list action * result A.

#[global] Instance prog_ret : MRet prog := λ A a, ([], Ok a).
#[global] Instance prog_bind : MBind prog := λ A B f m,
  match m with
  | (log, Ok a) => let '(log', r) := f a in (log ++ log', r)
  | (log, Throw e) => (log, Throw e)
  end.

Definition emit (a : action) : prog unit := ([a], Ok ()).
Definition write (e : event) : prog unit := emit (Write e).
Definition await {A} (r : result A) : prog A := ([], r).

(** [try { m } catch (error) { handler error }] *)
Definition try_catch {A} (m : prog A) (handler : thrown → prog A) : prog A :=
  match m with
  | (log, Ok a) => (log, Ok a)
  | (log, Throw e) => let '(log', r) := handler e in (log ++ log', r)
  end.

(** [process.env.NAME] *)
Definition process_env (e : gmap string jsstring) (name : string) : value :=
  match e !! name with
  | Some s => VStr s
  | None => VUndefined
  end.

Section Route.

(** The platform and library functions the route calls. *)

(** [new URL(v).hostname]; [None] when the constructor throws. *)
Variable url_hostname : value → option jsstring.

(** [selectRelevantContent] of [lib/content-selection], called on
    whatever value the content of a source is. *)
Variable selectRelevantContent : value → jsstring → nat → result jsstring.

(** [detectCompanyTicker] of [lib/company-ticker-map]. *)
Variable detectCompanyTicker : jsstring → value.

(** [Number(s)] on the text of an environment variable. *)
Variable Number : jsstring → number.

(** *** Normalisation (lines 212-320) *)

(** [hostname.replace(/^www\./, '')] *)
Definition strip_www (hostname : jsstring) : jsstring :=
  if JsString.starts_with (lit "www.") hostname then drop 4 hostname
  else hostname.

(** Returns [(host, siteName)]. *)
Definition buildHostInfo (url : value) : value * value :=
  if negb (truthy url) then (VUndefined, VUndefined)
  else match url_hostname url with
       | Some hostname => (VStr hostname, VStr (strip_www hostname))
       | None => (VUndefined, VUndefined)
       end.

(** [host] is a string or [undefined]. *)
Definition buildFavicon (host : value) : value :=
  match host with
  | VStr h =>
      if truthy host
      then VStr (lit "https://www.google.com/s2/favicons?domain=" ++ h ++ lit "&sz=64")
      else VUndefined
  | _ => VUndefined
  end.

(** The callback of [webResults.map]; [None] is its [null]. *)
Definition web_source (item : value) : result (option Source) :=
  url ← get item "url" ||| get item "href" ||| get item "link";
  if negb (truthy url) then Ok None
  else
    let '(host, siteName) := buildHostInfo url in
    title ← get item "title" ||| Ok url;
    description ← get item "content" ||| get item "summary" ||| get item "abstract";
    content ← get item "content";
    image ← get item "img_src" ||| get item "thumbnail" ||| get item "image";
    Ok (Some {| s_url := url;
                s_title := title;
                s_description := description;
                s_content := content;
                s_markdown := VUndefined;
                s_favicon := buildFavicon host;
                s_image := image;
                s_siteName := or siteName host |}).

(** [webResults.map(...).filter(Boolean)] *)
Definition transform_sources (webResults : list value) : result (list Source) :=
  mapped ← mapM web_source webResults;
  Ok (omap id mapped).

(** The callback of [newsSource.map]. *)
Definition news_item (item : value) : result NewsItem :=
  itemUrl ← get item "url" ||| get item "link" ||| get item "pageUrl"
            ||| get item "sourceUrl";
  imageUrl ← get item "imageUrl" ||| get item "image_url" ||| get item "image"
             ||| get item "thumbnail" ||| get item "thumbnailUrl"
             ||| get item "img_src" ||| get item "img" ||| get item "img_srcset";
  publishedDate ← get item "date" ||| get item "publishedDate"
                  ||| get item "published_at" ||| get item "publishedAt"
                  ||| get item "published" ||| get item "time";
  let '(_, siteName) := buildHostInfo itemUrl in
  title ← get item "title";
  description ← get item "content" ||| get item "summary" ||| get item "description";
  source ← get item "source" ||| (first_opt <$> get item "engines") ||| Ok siteName;
  Ok {| n_url := itemUrl;
        n_title := title;
        n_description := description;
        n_publishedDate := publishedDate;
        n_source := source;
        n_image := imageUrl |}.

(** [newsSource.map(...).filter((item) => item.url)] *)
Definition transform_news (newsSource : list value) : result (list NewsItem) :=
  mapped ← mapM news_item newsSource;
  Ok (filter (λ item, truthy (n_url item) = true) mapped).

(** The callback of [imageSource.map]. *)
Definition image_item (item : value) : result (option ImageItem) :=
  targetUrl ← get item "url" ||| get item "link" ||| get item "pageUrl"
              ||| get item "sourceUrl" ||| get item "img_src";
  imageUrl ← get item "imageUrl" ||| get item "image_url" ||| get item "image"
             ||| get item "thumbnail" ||| get item "thumbnailUrl"
             ||| get item "img_src" ||| get item "thumbnail_src";
  if negb (truthy targetUrl) then Ok None
  else
    title ← get item "title" ||| Ok (VStr (lit "Untitled"));
    width ← get item "imageWidth";
    height ← get item "imageHeight";
    position ← get item "position";
    Ok (Some {| i_url := targetUrl;
                i_title := title;
                i_thumbnail := imageUrl;
                i_source := snd (buildHostInfo targetUrl);
                i_width := width;
                i_height := height;
                i_position := position |}).

Definition transform_images (imageSource : list value) : result (list ImageItem) :=
  mapped ← mapM image_item imageSource;
  Ok (omap id mapped).

(** [Array.isArray(webData.results) ? webData.results : []] *)
Definition webResults_of (webData : value) : result (list value) :=
  r ← get webData "results";
  Ok (if isArray r then elements r else []).

(** [Array.isArray(data?.results) ? data.results
     : Array.isArray(data?.[alt]) ? data[alt] : []];
    [data] is [null] when the best-effort search failed. *)
Definition bestEffort_results (alt : string) (data : value) : list value :=
  if isArray (get_opt data "results") then elements (get_opt data "results")
  else if isArray (get_opt data alt) then elements (get_opt data alt)
  else [].

(** Lines 212-320 together. *)
Definition normalize (webData newsData imagesData : value) : result SearchBundle :=
  webResults ← webResults_of webData;
  let newsSource := bestEffort_results "news" newsData in
  let imageSource := bestEffort_results "images" imagesData in
  srcs ← transform_sources webResults;
  news ← transform_news newsSource;
  images ← transform_images imageSource;
  Ok {| sources := srcs; newsResults := news; imageResults := images |}.

(** *** The fan-out (lines 141-210) *)

Definition performSourceSearch (reply : result Response) : result value :=
  response ← reply;
  if negb (ok response) then
    let errorData := recover (json response) (VObj []) in
    detail ← get errorData "error" ||| Ok (VStr (statusText response));
    text ← to_string detail;
    Throw (new_Error (lit "SearxNG search error: " ++ text))
  else
    j ← json response;
    Ok (or j (VObj [])).

(** [try { return await performSourceSearch(c) } catch { return null }] *)
Definition bestEffort (reply : result Response) : value :=
  recover (performSourceSearch reply) VNull.

(** [Promise.all] of the three searches: the three requests are sent,
    a failure of the first rejects the whole, the two others never
    reject. *)
Definition fan_out (w : World) : prog (value * value * value) :=
  emit (FetchSearch general);;
  emit (FetchSearch news);;
  emit (FetchSearch images);;
  webData ← await (performSourceSearch (searx w general));
  mret (webData, bestEffort (searx w news), bestEffort (searx w images)).

(** *** Enrichment (lines 331-373) *)

Definition parsedLimit (w : World) : number :=
  match env w !! "FIRECRAWL_SCRAPE_LIMIT" with
  | Some s => Number s
  | None => Finite (QArith_base.inject_Z 5)
  end.

(** [Number.isFinite(p) && p > 0 ? Math.floor(p) : 5] *)
Definition scrapeLimit (p : number) : Z :=
  match p with
  | Finite q =>
      if negb (QArith_base.Qle_bool q (QArith_base.inject_Z 0))
      then Qround.Qfloor q else 5%Z
  | _ => 5%Z
  end.

(** [sources.slice(0, Math.max(1, scrapeLimit))] *)
Definition targets (w : World) (srcs : list Source) : list Source :=
  take (Z.to_nat (Z.max 1 (scrapeLimit (parsedLimit w)))) srcs.

(** The body of one scrape callback after its request was sent. *)
Definition scrape_one (reply : result Response) (source : Source) : result Scraped :=
  scrapeResponse ← reply;
  if negb (ok scrapeResponse) then
    let errorData := recover (json scrapeResponse) (VObj []) in
    detail ← get errorData "error" ||| Ok (VStr (statusText scrapeResponse));
    text ← to_string detail;
    Throw (new_Error text)
  else
    scrapeJson ← json scrapeResponse;
    data ← get scrapeJson "data";
    Ok {| sc_url := s_url source;
          sc_markdown := or (get_opt data "markdown") VUndefined;
          sc_content := or (get_opt data "content") VUndefined |}.

(** [Promise.allSettled(targets.map(...))]: a settled outcome per
    target, in the order of the targets. *)
Definition allSettled (w : World) (tgts : list Source) : list (result Scraped) :=
  imap (λ i source, scrape_one (firecrawl w i) source) tgts.

(** The index of the first element, counted from [k], that [p] accepts. *)
Fixpoint find_index {A} (p : nat → A → bool) (k : nat) (l : list A) : option nat :=
  match l with
  | [] => None
  | x :: rest => if p k x then Some k else find_index p (S k) rest
  end.

(** [s.url === result.value.url] for the source at position [k], where
    the scraped [url] is the one of the target at position [i]. *)
Definition same_url (i : nat) (url : value) (k : nat) (s : Source) : bool :=
  strict_equals (s_url s) url || Nat.eqb k i.

Definition merge_into (v : Scraped) (m : Source) : Source :=
  {| s_url := s_url m;
     s_title := s_title m;
     s_description := s_description m;
     s_content := or (sc_content v) (s_content m);
     s_markdown := or (sc_markdown v) (s_markdown m);
     s_favicon := s_favicon m;
     s_image := s_image m;
     s_siteName := s_siteName m |}.

(** One step of [scraped.forEach]: the found source is updated in
    place. *)
Definition merge_one (i : nat) (r : result Scraped) (srcs : list Source) : list Source :=
  match r with
  | Throw _ => srcs
  | Ok v =>
      match find_index (same_url i (sc_url v)) 0 srcs with
      | Some j => alter (merge_into v) j srcs
      | None => srcs
      end
  end.

Fixpoint merge_from (i : nat) (scraped : list (result Scraped)) (srcs : list Source)
  : list Source :=
  match scraped with
  | [] => srcs
  | r :: rest => merge_from (S i) rest (merge_one i r srcs)
  end.

(** The sources after enrichment. *)
Definition enrich (w : World) (srcs : list Source) : list Source :=
  merge_from 0 (allSettled w (targets w srcs)) srcs.

(** *** Context (lines 429-435) *)

Definition separator : jsstring :=
  [JsString.LF; JsString.LF] ++ lit "---" ++ [JsString.LF; JsString.LF].

(** The callback of [sources.map((source, index) => ...)]: the
    selector is called, then the template renders the title and the
    address. *)
Definition context_block (q : jsstring) (index : nat) (source : Source)
  : result jsstring :=
  let content := or (or (s_markdown source) (s_content source)) (VStr []) in
  relevantContent ← selectRelevantContent content q 2000;
  title ← to_string (s_title source);
  url ← to_string (s_url source);
  Ok (lit "[" ++ JsString.of_nat (index + 1) ++ lit "] " ++ title
      ++ [JsString.LF] ++ lit "URL: " ++ url
      ++ [JsString.LF] ++ relevantContent).

(** The blocks are made in the order of the sources; the first one that
    throws ends the request. *)
Definition prepare_context (q : jsstring) (srcs : list Source) : result jsstring :=
  blocks ← mapM id (imap (context_block q) srcs);
  Ok (JsString.join separator blocks).

(** *** The messages for the model (lines 83 and 437-500) *)

Definition isFollowUp (w : World) : bool := bool_decide (2 < length (messages w)).

(** Of the construction of [aiMessages], what can throw: on a follow-up
    the earlier messages, [messages.slice(0, -1)], are converted. *)
Definition aiMessages (w : World) : result unit :=
  if isFollowUp w then
    _ ← convertToModelMessages w (take (length (messages w) - 1) (messages w));
    Ok ()
  else Ok ().

(** *** The conversation preview (lines 517-524) *)

(** The callback of [messages.map((m) => ...)]. *)
Definition preview_line (m : value) : result jsstring :=
  parts ← get m "parts";
  content ← (if truthy parts then
               match parts with
               | VArr ps => text_of_parts ps
               | _ => Throw (TypeError_not_function "m.parts.filter")
               end
             else Ok []);
  role ← get m "role";
  shown ← to_string role;
  Ok (shown ++ lit ": " ++ content).

Definition conversationPreview (w : World) : result jsstring :=
  if isFollowUp w then
    JsString.join [JsString.LF; JsString.LF] <$> mapM preview_line (messages w)
  else Ok (lit "user: " ++ query w).

(** *** Follow-up questions (lines 546-550) *)

Definition followUpQuestions (text : jsstring) : list jsstring :=
  take 5
    (filter (λ q, 0 < length q)
       (JsString.trim <$> JsString.split JsString.LF text)).

(** *** The error part (lines 562-608) *)

Definition errorResponses (code : Z) : option (jsstring * jsstring) :=
  if (code =? 401)%Z then
    Some (lit "Invalid API key",
          lit "Please check your Firecrawl API key is correct.")
  else if (code =? 402)%Z then
    Some (lit "Insufficient credits",
          lit "You've run out of Firecrawl credits. Please upgrade your plan.")
  else if (code =? 429)%Z then
    Some (lit "Rate limit exceeded",
          lit "Too many requests. Please wait a moment and try again.")
  else if (code =? 504)%Z then
    Some (lit "Request timeout",
          lit "The search took too long. Try a simpler query or fewer sources.")
  else None.

Definition error_part (error : thrown) : event :=
  let errorMessage :=
    if instance_of_Error error then message error else lit "Unknown error" in
  let code :=
    match statusCode error with
    | Some c => Some c
    | None => status error
    end in
  let truthy_code :=
    match code with
    | Some c => if (c =? 0)%Z then None else Some c
    | None => None
    end in
  match truthy_code ≫= errorResponses with
  | Some (e, suggestion) => data_error e (Some suggestion) truthy_code
  | None => data_error errorMessage None truthy_code
  end.

(** The text the catch clause takes from a thrown value is not empty. *)
Definition has_text (e : thrown) : Prop :=
  instance_of_Error e = true → message e ≠ [].

(** An error without status code: its part carries its message and
    nothing else, and the message is not empty. *)
Definition plain (e : thrown) : Prop :=
  error_part e = data_error (message e) None None ∧ message e ≠ [].

(** *** The stream (lines 88-610) *)

Definition bundle (srcs : list Source) (b : SearchBundle) : SearchBundle :=
  {| sources := srcs;
     newsResults := newsResults b;
     imageResults := imageResults b |}.

(** The context with which the answer generation is called, when the
    route gets that far. *)
Definition context_for (w : World) (srcs : list Source) : result jsstring :=
  context ← prepare_context (query w) srcs;
  aiMessages w;;
  Ok context.

(** The answer with which the follow-up generation is called, when the
    route gets that far. *)
Definition answer_for (w : World) (context : jsstring) : result jsstring :=
  fullAnswer ← answer_text w context;
  conversationPreview w;;
  Ok fullAnswer.

(** Lines 398-560: from the sources to the follow-up questions. *)
Definition generate (w : World) (srcs : list Source) : prog unit :=
  (if bool_decide (0 < length srcs)
   then write (data_status "status-2b" "Analyzing detailed content...")
   else mret ());;
  write (data_status "status-3" "Analyzing sources and generating answer...");;
  (let ticker := detectCompanyTicker (query w) in
   if truthy ticker then write (data_ticker ticker) else mret ());;
  context ← await (prepare_context (query w) srcs);
  await (aiMessages w);;
  emit (StreamText context);;
  (Write ∘ text_delta <$> answer_deltas w context, Ok ());;
  fullAnswer ← await (answer_text w context);
  await (conversationPreview w);;
  try_catch
    (emit (GenerateText fullAnswer);;
     text ← await (followUp_text w fullAnswer);
     write (data_followup (followUpQuestions text)))
    (λ _, mret ()).

Definition pipeline (w : World) : prog unit :=
  write (data_status "status-1" "Starting search...");;
  write (data_status "status-2" "Searching for relevant sources...");;
  '(webData, newsData, imagesData) ← fan_out w;
  found ← await (normalize webData newsData imagesData);
  srcs ←
    (if bool_decide (0 < length (sources found)) then
       write (data_status "status-3a" "Fetching full article content...");;
       ((λ source, FetchScrape (s_url source)) <$> targets w (sources found), Ok ());;
       let enriched := enrich w (sources found) in
       write (data_sources (bundle enriched found));;
       mret enriched
     else
       write (data_sources (bundle (sources found) found));;
       mret (sources found));
  generate w srcs.

(** The [execute] callback of the stream: its trace. *)
Definition execute (w : World) : list action :=
  fst (try_catch (pipeline w) (λ error, write (error_part error))).

(** What the callback does once the bundle is written. *)
Definition closing (w : World) (srcs : list Source) : list action :=
  fst (try_catch (generate w srcs) (λ error, write (error_part error))).

End Route.

(** ** The [check-env] route *)

Module CheckEnv.

(** [GET]: the JSON body of the response. *)
Definition GET (e : gmap string jsstring) : value :=
  VObj [ ("hasFirecrawlKey", VBool (truthy (process_env e "FIRECRAWL_API_KEY")));
         ("hasFirecrawlBaseUrl", VBool (truthy (process_env e "FIRECRAWL_BASE_URL")));
         ("hasOpenAIKey", VBool (truthy (process_env e "OPENAI_API_KEY")));
         ("hasOpenAIBaseUrl", VBool (truthy (process_env e "OPENAI_BASE_URL")));
         ("hasOpenAIModel", VBool (truthy (process_env e "OPENAI_MODEL")));
         ("hasOpenAIApiMode", VBool (truthy (process_env e "OPENAI_API_MODE"))) ].

Definition names : list string :=
  [ "FIRECRAWL_API_KEY"; "FIRECRAWL_BASE_URL"; "OPENAI_API_KEY";
    "OPENAI_BASE_URL"; "OPENAI_MODEL"; "OPENAI_API_MODE" ].

End CheckEnv.

(** ** The relevance selector *)

Module ContentSelection.

Import JsString.

(** Lower case of the unaccented Latin capitals. *)
Definition lower (c : code_unit) : code_unit :=
  if ((65 <=? c) && (c <=? 90))%N then (c + 32)%N else c.

Definition fold_case (s : jsstring) : jsstring := lower <$> s.

(** [t] occurs somewhere in [s]. *)
Fixpoint occurs (t s : jsstring) : bool :=
  starts_with t s ||
  match s with
  | [] => false
  | _ :: rest => occurs t rest
  end.

(** The significant terms of a query: its words of more than two
    units, case folded. *)
Definition terms (q : jsstring) : list jsstring :=
  filter (λ t, 2 < length t) (split SPACE (fold_case q)).

(** Lexical overlap of a segment with the terms. *)
Definition score (ts : list jsstring) (segment : jsstring) : nat :=
  length (filter (λ t, occurs t (fold_case segment) = true) ts).

(** The candidate segments, each with its position in the document. *)
Definition segments (document : jsstring) : list (nat * jsstring) :=
  imap pair (split LF document).

Fixpoint insert_by {A} (before : A → A → bool) (x : A) (l : list A) : list A :=
  match l with
  | [] => [x]
  | y :: rest => if before y x then y :: insert_by before x rest else x :: l
  end.

(** A stable insertion sort: [before y x] keeps [y] ahead of a later
    [x]. *)
Definition sort_by {A} (before : A → A → bool) (l : list A) : list A :=
  foldr (insert_by before) [] (reverse l).

Fixpoint drop_token (rev_head : jsstring) : jsstring :=
  match rev_head with
  | [] => []
  | c :: rest => if (c =? SPACE)%N then rev_head else drop_token rest
  end.

(** The first [n] units of [s], shortened to the last word boundary
    when the cut would fall inside a word and a boundary exists. *)
Definition cut (s : jsstring) (n : nat) : jsstring :=
  let head := take n s in
  match drop n s with
  | [] => head
  | c :: _ =>
      if (c =? SPACE)%N then head
      else match drop_token (reverse head) with
           | [] => head
           | kept => reverse kept
           end
  end.

(** Takes the candidates in the given order while they fit in [room];
    the first that does not fit is cut to what is left and ends the
    selection.  A segment after the first costs one more unit, the
    line feed that joins it. *)
Fixpoint greedy (room : nat) (first : bool) (candidates : list (nat * jsstring))
  : list (nat * jsstring) :=
  match candidates with
  | [] => []
  | (i, segment) :: rest =>
      let sep := if first then 0 else 1 in
      if Nat.leb (sep + length segment) room
      then (i, segment) :: greedy (room - (sep + length segment)) false rest
      else if Nat.ltb sep room then [(i, cut segment (room - sep))] else []
  end.

(** Modelled from the spec: [selectRelevantContent] of
    [lib/content-selection], which the route imports and whose file is
    not part of the sources at hand.  Section 4.4 of the specification:
    a document within the budget is returned unchanged; otherwise its
    segments (here: its lines) are scored by overlap with the query's
    significant terms, taken greedily by descending score until the
    budget is reached, the last one cut at a word boundary, and given
    back in document order; when no segment matches, the leading slice
    of the document is returned. *)
Definition select (document q : jsstring) (budget : nat) : jsstring :=
  if Nat.leb (length document) budget then document
  else
    let ts := terms q in
    let candidates := segments document in
    if forallb (λ c, Nat.eqb (score ts c.2) 0) candidates
    then take budget document
    else
      let ranked := sort_by (λ a b, Nat.leb (score ts b.2) (score ts a.2)) candidates in
      let chosen := greedy budget true ranked in
      join [LF] (snd <$> sort_by (λ a b, Nat.leb a.1 b.1) chosen).

End ContentSelection.

(** ** Reading a trace *)

Definition bundles (t : list action) : list SearchBundle :=
  omap (λ a, match a with Write (data_sources b) => Some b | _ => None end) t.

Definition error_fields (t : list action) : list jsstring :=
  omap (λ a, match a with Write (data_error e _ _) => Some e | _ => None end) t.

Definition text_deltas (t : list action) : list jsstring :=
  omap (λ a, match a with Write (text_delta d) => Some d | _ => None end) t.

Definition scrape_requests (t : list action) : list value :=
  omap (λ a, match a with FetchScrape u => Some u | _ => None end) t.

Definition contexts (t : list action) : list jsstring :=
  omap (λ a, match a with StreamText c => Some c | _ => None end) t.

(** The calls of the stages that follow the search: enrichment, answer
    generation, follow-up generation. *)
Definition later_stage (a : action) : bool :=
  match a with
  | FetchScrape _ | StreamText _ | GenerateText _ => true
  | _ => false
  end.

(** The same request with another outcome of one of the searches. *)
Definition with_searx (w : World) (c : category) (r : result Response) : World :=
  {| query := query w;
     messages := messages w;
     env := env w;
     searx := λ c', if bool_decide (c' = c) then r else searx w c';
     firecrawl := firecrawl w;
     convertToModelMessages := convertToModelMessages w;
     answer_deltas := answer_deltas w;
     answer_text := answer_text w;
     followUp_text := followUp_text w |}.

(** A search that answers with no result at all. *)
Definition no_results : result Response :=
  Ok {| ok := true; statusText := lit "OK"; json := Ok (VObj []) |}.

(** The collection of a best-effort category in a bundle, by its [url]s. *)
Definition collection (c : category) (b : SearchBundle) : list value :=
  match c with
  | general => s_url <$> sources b
  | news => n_url <$> newsResults b
  | images => i_url <$> imageResults b
  end.

(** ** A sample platform and sample requests *)

Module Sample.

Import JsString.

Fixpoint until_slash (s : jsstring) : jsstring :=
  match s with
  | [] => []
  | c :: rest => if (c =? 47)%N then [] else c :: until_slash rest
  end.

(** Host of an absolute [http] or [https] address. *)
Definition hostname (v : value) : option jsstring :=
  match to_string v with
  | Ok s =>
      if starts_with (lit "https://") s then Some (until_slash (drop 8 s))
      else if starts_with (lit "http://") s then Some (until_slash (drop 7 s))
      else None
  | Throw _ => None
  end.

Definition selector (content : value) (q : jsstring) (budget : nat)
  : result jsstring :=
  document ← to_string content;
  Ok (ContentSelection.select document q budget).

Definition ticker (q : jsstring) : value := VNull.

Definition digit (c : code_unit) : option Z :=
  if ((48 <=? c) && (c <=? 57))%N then Some (Z.of_N c - 48)%Z else None.

(** Decimal integers only. *)
Definition to_number (s : jsstring) : number :=
  match mapM digit s with
  | Some (d :: ds) =>
      Finite (QArith_base.inject_Z (foldl (λ acc x, acc * 10 + x)%Z 0%Z (d :: ds)))
  | _ => NaN
  end.

Definition run : World → list action :=
  execute hostname selector ticker to_number.

Definition replies (v : value) : result Response :=
  Ok {| ok := true; statusText := lit "OK"; json := Ok v |}.

Definition paris : value :=
  VObj [ ("url", VStr (lit "https://www.example.org/paris"));
         ("title", VStr (lit "Paris"));
         ("content", VStr (lit "Paris is the capital of France.")) ].

Definition lyon : value :=
  VObj [ ("href", VStr (lit "http://example.com/lyon"));
         ("title", VStr (lit "Lyon")) ].

Definition page (markdown : string) : value :=
  VObj [ ("data", VObj [ ("markdown", VStr (lit markdown)) ]) ].

Definition results : value := VObj [ ("results", VArr [paris; lyon]) ].

(** Two web results, no news, no images; the first page is scraped,
    the second scrape fails; the model answers and proposes two
    questions. *)
Definition calm : World := {|
  query := lit "capital of France";
  messages := [ VObj [ ("role", VStr (lit "user"));
                       ("parts", VArr [ VObj [ ("type", VStr (lit "text"));
                                               ("text", VStr (lit "capital of France")) ] ]) ] ];
  env := ∅;
  searx := λ c,
    match c with
    | general => replies results
    | _ => replies (VObj [ ("results", VArr []) ])
    end;
  firecrawl := λ i,
    if Nat.eqb i 0 then replies (page "# Paris") else Throw (new_Error (lit "timeout"));
  convertToModelMessages := λ earlier, Ok earlier;
  answer_deltas := λ _, [lit "Paris"; lit " [1]"];
  answer_text := λ _, Ok (lit "Paris [1]");
  followUp_text := λ _, Ok (lit " How large is Paris? " ++ [LF; LF] ++ lit "What about Lyon?")
|}.

(** SearxNG answers the required search with a 502 and no JSON. *)
Definition gateway_failure : World :=
  with_searx calm general
    (Ok {| ok := false; statusText := lit "Bad Gateway";
           json := Throw (new_Error (lit "Unexpected token")) |}).

(** As [calm], with the scrape limit set to one. *)
Definition one_target : World :=
  {| query := query calm;
     messages := messages calm;
     env := {[ "FIRECRAWL_SCRAPE_LIMIT" := lit "1" ]};
     searx := searx calm;
     firecrawl := firecrawl calm;
     convertToModelMessages := convertToModelMessages calm;
     answer_deltas := answer_deltas calm;
     answer_text := answer_text calm;
     followUp_text := followUp_text calm |}.

(** The two sources that the search of [calm] gives. *)
Definition two_sources : list Source :=
  recover (transform_sources hostname [paris; lyon]) [].

(** The news search fails; all the rest is as in [calm]. *)
Definition news_failure : World :=
  with_searx calm news (Throw (new_Error (lit "news down"))).

(** A result whose title is an object with a [toString] key. *)
Definition opaque : value :=
  VObj [ ("url", VStr (lit "https://example.org/a"));
         ("title", VObj [ ("toString", VNum (lit "1")) ]) ].

(** As [calm], with [opaque] as the only web result. *)
Definition opaque_title : World :=
  with_searx calm general (replies (VObj [ ("results", VArr [ opaque ]) ])).

(** As [calm], with the scrape limit set to three. *)
Definition three_targets : World :=
  {| query := query calm;
     messages := messages calm;
     env := {[ "FIRECRAWL_SCRAPE_LIMIT" := lit "3" ]};
     searx := searx calm;
     firecrawl := firecrawl calm;
     convertToModelMessages := convertToModelMessages calm;
     answer_deltas := answer_deltas calm;
     answer_text := answer_text calm;
     followUp_text := followUp_text calm |}.

(** The news search fails and so does the answer generation. *)
Definition double_failure : World :=
  {| query := query calm;
     messages := messages calm;
     env := env calm;
     searx := searx (with_searx calm news (Throw (new_Error (lit "news down"))));
     firecrawl := firecrawl calm;
     convertToModelMessages := convertToModelMessages calm;
     answer_deltas := λ _, [];
     answer_text := λ _, Throw (Thrown true (lit "quota") (Some 429%Z) None);
     followUp_text := followUp_text calm |}.

End Sample.

(** ** The fallback chains, as the specification words them *)

Module Fallback.

(** The first candidate field of [item] that is present with a truthy
    value, going through [names] in order; [None] when there is none. *)
Definition first_present (names : list string) (item : value) : option value :=
  snd <$> list_find (λ v, truthy v = true) (get_opt item <$> names).

Definition source_url : list string := [ "url"; "href"; "link" ].
Definition news_url : list string := [ "url"; "link"; "pageUrl"; "sourceUrl" ].
Definition image_url : list string :=
  [ "url"; "link"; "pageUrl"; "sourceUrl"; "img_src" ].

(** The best available content of a source: its [markdown], else its
    [content], else the empty string. *)
Definition best_content (s : Source) : value :=
  if truthy (s_markdown s) then s_markdown s
  else if truthy (s_content s) then s_content s
  else VStr [].

End Fallback.

(** ** What enrichment may change *)

(** The field either is as before, or holds the truthy value fetched for
    a target whose [url] is the one of this source. *)
Definition kept_or_fetched (field : Source → value) (fetched : Scraped → value)
    (scraped : list (result Scraped)) (k : nat) (s s' : Source) : Prop :=
  field s' = field s
  ∨ ∃ i v, scraped !! i = Some (Ok v)
           ∧ same_url i (sc_url v) k s = true
           ∧ truthy (fetched v) = true
           ∧ field s' = fetched v.

Definition augmented (scraped : list (result Scraped)) (k : nat) (s s' : Source) : Prop :=
  s_url s' = s_url s ∧ s_title s' = s_title s
  ∧ s_description s' = s_description s ∧ s_favicon s' = s_favicon s
  ∧ s_image s' = s_image s ∧ s_siteName s' = s_siteName s
  ∧ kept_or_fetched s_markdown sc_markdown scraped k s s'
  ∧ kept_or_fetched s_content sc_content scraped k s s'.

(** ** More readings of a trace *)

Definition followups (t : list action) : list (list jsstring) :=
  omap (λ a, match a with Write (data_followup qs) => Some qs | _ => None end) t.

Definition tickers (t : list action) : list value :=
  omap (λ a, match a with Write (data_ticker s) => Some s | _ => None end) t.

Definition statuses (t : list action) : list string :=
  omap (λ a, match a with Write (data_status id _) => Some id | _ => None end) t.

Definition followup_calls (t : list action) : list jsstring :=
  omap (λ a, match a with GenerateText full => Some full | _ => None end) t.

(** The same request with another follow-up generation. *)
Definition with_followUp (w : World) (f : jsstring → result jsstring) : World :=
  {| query := query w;
     messages := messages w;
     env := env w;
     searx := searx w;
     firecrawl := firecrawl w;
     convertToModelMessages := convertToModelMessages w;
     answer_deltas := answer_deltas w;
     answer_text := answer_text w;
     followUp_text := f |}.

(** ** The head of [POST] (lines 11-60 and 615-626) *)

(** The parsed body: [body.query] and [body.messages || []]. *)
Record Body := {
  b_query : value;
  b_messages : list value
}.

(** The test of the [filter] callback, [p.type === 'text'], on a part
    that is an object. *)
Definition is_text (p : value) : Prop :=
  strict_equals (get_opt p "type") (VStr (lit "text")) = true.

#[global] Instance is_text_dec (p : value) : Decision (is_text p) :=
  decide (strict_equals (get_opt p "type") (VStr (lit "text")) = true).

(** Lines 15-27. *)
Definition extract_query (body : Body) : result value :=
  let messages := b_messages body in
  let query := b_query body in
  if negb (truthy query) && bool_decide (0 < length messages) then
    match last messages with
    | None => Ok query
    | Some lastMessage =>
        parts ← get lastMessage "parts";
        if truthy parts then
          match parts with
          | VArr ps => VStr <$> text_of_parts ps
          | _ => Throw (TypeError_not_function "lastMessage.parts.filter")
          end
        else
          content ← get lastMessage "content";
          if truthy content then Ok content else Ok query
    end
  else Ok query.

(** What [POST] does before it opens the stream: a JSON response with a
    status, or the query it goes on with. *)
Inductive early :=
  | Respond (status : Z) (error : jsstring) (detail : option jsstring)
  | Proceed (q : value).

Definition POST_head (request_json : result Body) (e : gmap string jsstring) : early :=
  match request_json ≫= extract_query with
  | Throw error =>
      Respond 500 (lit "Search failed")
        (Some (if instance_of_Error error then message error
               else lit "Unknown error"))
  | Ok q =>
      if negb (truthy q) then
        Respond 400 (lit "Query is required") None
      else if negb (truthy (process_env e "FIRECRAWL_API_KEY")) then
        Respond 500 (lit "Firecrawl API key not configured") None
      else if negb (truthy (process_env e "OPENAI_API_KEY")) then
        Respond 500 (lit "OpenAI API key not configured") None
      else if negb (truthy (process_env e "SEARXNG_BASE_URL")) then
        Respond 500 (lit "SearxNG base URL not configured") None
      else Proceed q
  end.

(** ** Endpoints (lines 35, 60, 136-139 and 331) *)

Definition SLASH : JsString.code_unit := 47%N.

(** [s.replace(/\/$/, '')] *)
Fixpoint replace_trailing_slash (s : jsstring) : jsstring :=
  match s with
  | [] => []
  | c :: rest =>
      if (c =? SLASH)%N && bool_decide (rest = []) then []
      else c :: replace_trailing_slash rest
  end.

(** [s.endsWith('/') ? s.slice(0, -1) : s] *)
Definition slice_trailing_slash (s : jsstring) : jsstring :=
  match last s with
  | Some c => if (c =? SLASH)%N then take (length s - 1) s else s
  | None => s
  end.

(** [process.env.NAME || fallback] *)
Definition env_or (e : gmap string jsstring) (name : string) (fallback : jsstring)
  : jsstring :=
  match e !! name with
  | Some s => if bool_decide (s = []) then fallback else s
  | None => fallback
  end.

Definition firecrawlBaseUrl (e : gmap string jsstring) : jsstring :=
  env_or e "FIRECRAWL_BASE_URL" (lit "https://api.firecrawl.dev").

Definition searchEndpoint (e : gmap string jsstring) : jsstring :=
  slice_trailing_slash (firecrawlBaseUrl e) ++ lit "/v2/search".

Definition firecrawlScrapeEndpoint (e : gmap string jsstring) : jsstring :=
  replace_trailing_slash (firecrawlBaseUrl e) ++ lit "/v1/scrape".

(** ** Further sample requests *)

Module Edge.

Import JsString Sample.


(** As [calm], with a general payload that has no [results]. *)
Definition no_array : World := with_searx calm general no_results.

(** Firecrawl refuses every scrape with a status that is not OK. *)
Definition scraper_down : World :=
  {| query := query calm;
     messages := messages calm;
     env := env calm;
     searx := searx calm;
     firecrawl := λ _,
       Ok {| ok := false; statusText := lit "Payment Required";
             json := Ok (VObj [ ("error", VStr (lit "Insufficient credits")) ]) |};
     convertToModelMessages := convertToModelMessages calm;
     answer_deltas := answer_deltas calm;
     answer_text := answer_text calm;
     followUp_text := followUp_text calm |}.

(** A follow-up of [calm] whose last message is [null]; the body gave
    the query. *)
Definition null_message : World :=
  {| query := query calm;
     messages := [ VObj [ ("role", VStr (lit "user")) ];
                   VObj [ ("role", VStr (lit "assistant")) ];
                   VNull ];
     env := env calm;
     searx := searx calm;
     firecrawl := firecrawl calm;
     convertToModelMessages := convertToModelMessages calm;
     answer_deltas := answer_deltas calm;
     answer_text := answer_text calm;
     followUp_text := followUp_text calm |}.

(** The same result twice. *)
Definition twins : list Source :=
  recover (transform_sources hostname [paris; paris]) [].

(** A result whose address has no scheme. *)
Definition bare : value :=
  VObj [ ("url", VStr (lit "example.org/paris"));
         ("title", VStr (lit "Paris")) ].

(** A message with a file part only, and a [content]. *)
Definition file_body : Body :=
  {| b_query := VUndefined;
     b_messages :=
       [ VObj [ ("role", VStr (lit "user"));
                ("parts", VArr [ VObj [ ("type", VStr (lit "file"));
                                        ("url", VStr (lit "data:,")) ] ]);
                ("content", VStr (lit "capital of France")) ] ] |}.

(** A message with a text part and a [null] part. *)
Definition null_part_body : Body :=
  {| b_query := VStr [];
     b_messages :=
       [ VObj [ ("role", VStr (lit "user"));
                ("parts", VArr [ VObj [ ("type", VStr (lit "text"));
                                        ("text", VStr (lit "capital of France")) ];
                                 VNull ]) ] ] |}.

Definition asked : result Body :=
  Ok {| b_query := VStr (lit "capital of France"); b_messages := [] |}.

Definition configured : gmap string jsstring :=
  {[ "FIRECRAWL_API_KEY" := lit "fc-1";
     "OPENAI_API_KEY" := lit "sk-1";
     "SEARXNG_BASE_URL" := lit "http://searx:8080" ]}.

End Edge.

(** * Properties *)

(** ** Strings *)

Section Strings.

Import JsString.

Lemma length_join_le (sep : jsstring) (parts : list jsstring) :
  length (join sep parts)
  = sum_list_with length parts + length sep * (length parts - 1).
Proof.
  induction parts as [|p [|p' rest] IH]; simpl in *.
  - lia.
  - rewrite Nat.add_0_r. lia.
  - rewrite !length_app, IH. lia.
Qed.

Lemma join_snoc (sep : jsstring) (parts : list jsstring) (p : jsstring) :
  join sep (parts ++ [p]) = join sep parts ++ (if parts is [] then [] else sep) ++ p.
Proof.
  induction parts as [|a [|b rest] IH]; [done | done |].
  change (a ++ sep ++ join sep ((b :: rest) ++ [p])
          = (a ++ sep ++ join sep (b :: rest)) ++ sep ++ p).
  rewrite IH. by rewrite <-!app_assoc.
Qed.

(** Every piece of a split is made of units of the text. *)
Lemma split_units (sep : code_unit) (s : jsstring) (P : code_unit → Prop) :
  Forall P s → Forall (Forall P) (split sep s).
Proof.
  induction 1 as [|c rest Hc Hrest IH]; simpl.
  - by repeat constructor.
  - destruct (c =? sep)%N.
    + by constructor.
    + destruct (split sep rest) as [|p ps]; [by repeat constructor|].
      inversion IH; subst. constructor; [by constructor | done].
Qed.

Lemma trim_start_blank (s : jsstring) :
  Forall (λ c, is_white_space c = true) s → trim_start s = [].
Proof. induction 1 as [|c rest Hc _ IH]; simpl; [done | by rewrite Hc]. Qed.

Lemma trim_blank (s : jsstring) :
  Forall (λ c, is_white_space c = true) s → trim s = [].
Proof. intros H. unfold trim. by rewrite (trim_start_blank s H). Qed.

Lemma trim_start_head (s : jsstring) (c : code_unit) :
  head (trim_start s) = Some c → is_white_space c = false.
Proof.
  induction s as [|x rest IH]; simpl; [done|].
  destruct (is_white_space x) eqn:Hx; [done|]. by intros [= <-].
Qed.

Lemma trim_start_suffix (s : jsstring) : trim_start s `suffix_of` s.
Proof.
  induction s as [|x rest IH]; simpl; [done|].
  destruct (is_white_space x); [by apply suffix_cons_r | done].
Qed.

Lemma last_suffix {A} (l k : list A) (x : A) :
  l `suffix_of` k → last l = Some x → last k = Some x.
Proof. intros [pre ->] Hx. rewrite last_app, Hx. done. Qed.

(** A trimmed string neither starts nor ends with white space. *)
Lemma trim_ends (s : jsstring) (c : code_unit) :
  head (trim s) = Some c ∨ last (trim s) = Some c → is_white_space c = false.
Proof.
  unfold trim, trim_end. intros [Hc|Hc].
  - rewrite head_reverse in Hc.
    apply (last_suffix _ _ _ (trim_start_suffix _)) in Hc.
    rewrite last_reverse in Hc. by apply trim_start_head in Hc.
  - rewrite last_reverse in Hc. by apply trim_start_head in Hc.
Qed.

End Strings.

Lemma filter_none {A} (P : A → Prop) `{∀ x, Decision (P x)} (l : list A) :
  Forall (λ x, ¬ P x) l → filter P l = [].
Proof.
  induction 1 as [|x rest Hx _ IH]; [done|].
  by rewrite filter_cons_False.
Qed.

(** ** Follow-up questions *)

(** C9.  Whatever text the follow-up generation returns, the list of
    questions has at most five entries; the entries are, in the order of
    the text, trimmed lines of it, none of them empty and none with
    white space at either end; and a text that is empty or made of white
    space only gives the empty list. *)
Theorem followUpQuestions_trimmed_lines (text : jsstring) :
  let lines := JsString.split JsString.LF text in
  let questions := followUpQuestions text in
  length questions ≤ 5
  ∧ questions `sublist_of` (JsString.trim <$> lines)
  ∧ (∀ q, q ∈ questions →
          q ≠ []
          ∧ (∃ line, line ∈ lines ∧ q = JsString.trim line)
          ∧ (∀ c, head q = Some c ∨ last q = Some c →
                  JsString.is_white_space c = false))
  ∧ (Forall (λ c, JsString.is_white_space c = true) text → questions = []).
Proof.
  intros lines questions. unfold questions, followUpQuestions. fold lines.
  split; [|split; [|split]].
  - rewrite length_take. lia.
  - etrans; [apply sublist_take | apply sublist_filter].
  - intros q Hq.
    apply (λ H, elem_of_sublist _ _ _ H (sublist_take _ _)), list_elem_of_filter in Hq.
    destruct Hq as [Hlen Hin]. split; [|split].
    + intros ->. simpl in Hlen. lia.
    + apply list_elem_of_fmap in Hin as (line & -> & Hline). eauto.
    + apply list_elem_of_fmap in Hin as (line & -> & Hline). apply trim_ends.
  - intros Hblank.
    assert (Hlines : Forall (λ q : jsstring, ¬ 0 < length q) (JsString.trim <$> lines)).
    { apply Forall_fmap. unfold lines.
      eapply Forall_impl; [apply (split_units _ _ _ Hblank)|].
      intros line Hline. simpl. rewrite (trim_blank line Hline). simpl. lia. }
    by rewrite (filter_none _ _ Hlines).
Qed.

(** A response of blank lines only: no question, and no exception on the
    way. *)
Lemma followUpQuestions_blank_sample :
  followUpQuestions (lit "  " ++ [JsString.LF] ++ lit " ") = [].
Proof.
  refine (proj2 (proj2 (proj2 (followUpQuestions_trimmed_lines _))) _).
  repeat constructor.
Defined.

(** ** The environment check *)

(** C10.  Two environments in which the same of the six variables are set
    to a non-empty text get the same response from [GET]; every property
    of the response is the boolean of presence of one of the six
    variables, so no text of the environment appears in it. *)
Theorem check_env_presence_only (e1 e2 : gmap string jsstring) :
  (∀ name, name ∈ CheckEnv.names →
     truthy (process_env e1 name) = truthy (process_env e2 name)) →
  CheckEnv.GET e1 = CheckEnv.GET e2
  ∧ ∃ props, CheckEnv.GET e1 = VObj props
      ∧ Forall (λ kv, ∃ name, name ∈ CheckEnv.names
                  ∧ kv.2 = VBool (truthy (process_env e1 name))) props.
Proof.
  intros Hagree. split.
  - unfold CheckEnv.GET.
    rewrite !Hagree; [done | unfold CheckEnv.names; set_solver..].
  - eexists. split; [reflexivity|].
    repeat (constructor; [eexists; split; [|reflexivity];
                          unfold CheckEnv.names; set_solver|]).
    constructor.
Qed.

(** Two deployments with different keys. *)
Lemma check_env_two_keys :
  CheckEnv.GET {[ "FIRECRAWL_API_KEY" := lit "fc-1f0e"; "OPENAI_API_KEY" := lit "sk-A" ]}
  = CheckEnv.GET {[ "FIRECRAWL_API_KEY" := lit "fc-77c2"; "OPENAI_API_KEY" := lit "sk-B" ]}.
Proof.
  refine (proj1 (check_env_presence_only _ _ _)).
  intros name Hin. unfold CheckEnv.names in Hin.
  repeat (apply elem_of_cons in Hin as [-> | Hin]; [vm_compute; reflexivity|]).
  by apply elem_of_nil in Hin.
Defined.

(** ** Normalisation *)

Section Normalisation.

Variable url_hostname : value → option jsstring.

Lemma get_present (item : value) (k : string) :
  nullish item = false → get item k = Ok (get_opt item k).
Proof. by destruct item. Qed.

Lemma orM_Ok (a b : value) : Ok a ||| Ok b = Ok (or a b).
Proof. unfold orM, or. simpl. by destruct (truthy a). Qed.

(** A chain [v || v1 || ... || vn] is truthy exactly when one operand
    is, and is then the first truthy operand. *)
Lemma or_chain_first (v : value) (vs : list value) :
  snd <$> list_find (λ v, truthy v = true) (v :: vs)
  = (if truthy (foldl or v vs) then Some (foldl or v vs) else None).
Proof.
  revert v. induction vs as [|v' vs IH]; intros v.
  - simpl. case_decide as Hv; simpl; [by rewrite Hv|].
    by destruct (truthy v).
  - specialize (IH (or v v')). simpl in *. rewrite <-IH. unfold or.
    destruct (truthy v) eqn:Hv; simpl; rewrite ?Hv;
      repeat case_decide; simpl; try done; try congruence.
    all: by destruct (list_find _ vs) as [[i x]|].
Qed.

Lemma mapM_Forall2 {A B} (f : A → result B) (R : A → B → Prop) (l : list A) :
  Forall (λ x, ∃ y, f x = Ok y ∧ R x y) l →
  ∃ ys, mapM f l = Ok ys ∧ Forall2 R l ys.
Proof.
  induction 1 as [|x rest (y & Hy & HR) _ (ys & Hys & HRs)].
  - exists []. by split; [|constructor].
  - exists (y :: ys). split; [|by constructor].
    simpl. rewrite Hy. simpl. by rewrite Hys.
Qed.

Ltac read_item Hitem :=
  rewrite ?(get_present _ _ Hitem);
  repeat (rewrite ?orM_Ok; cbn [mbind result_bind fmap result_fmap]).

Lemma web_source_url (item : value) :
  nullish item = false →
  ∃ o, web_source url_hostname item = Ok o
       ∧ s_url <$> o = Fallback.first_present Fallback.source_url item.
Proof.
  intros Hitem. unfold Fallback.first_present, Fallback.source_url.
  rewrite fmap_cons, or_chain_first. simpl.
  unfold web_source. read_item Hitem.
  destruct (truthy (or (or _ _) _)); simpl; [|by eexists].
  destruct (buildHostInfo _ _) as [host siteName].
  read_item Hitem. by eexists.
Qed.

Lemma news_item_url (item : value) :
  nullish item = false →
  ∃ n, news_item url_hostname item = Ok n
       ∧ (if truthy (n_url n) then Some (n_url n) else None)
         = Fallback.first_present Fallback.news_url item.
Proof.
  intros Hitem. unfold Fallback.first_present, Fallback.news_url.
  rewrite fmap_cons, or_chain_first. simpl.
  unfold news_item. read_item Hitem.
  destruct (buildHostInfo _ _) as [host siteName].
  read_item Hitem. by eexists.
Qed.

Lemma image_item_url (item : value) :
  nullish item = false →
  ∃ o, image_item url_hostname item = Ok o
       ∧ i_url <$> o = Fallback.first_present Fallback.image_url item.
Proof.
  intros Hitem. unfold Fallback.first_present, Fallback.image_url.
  rewrite fmap_cons, or_chain_first. simpl.
  unfold image_item. read_item Hitem.
  destruct (truthy (or (or (or (or _ _) _) _) _)); simpl; [|by eexists].
  read_item Hitem. by eexists.
Qed.

Lemma first_present_truthy (names : list string) (item u : value) :
  Fallback.first_present names item = Some u → truthy u = true.
Proof.
  unfold Fallback.first_present. intros H.
  destruct (list_find _ _) as [[i x]|] eqn:Hfind; simplify_eq/=.
  by apply list_find_Some in Hfind as (_ & ? & _).
Qed.

Lemma omap_Forall2 {A B} (g : A → option value) (h : B → option value)
    (items : list A) (mapped : list B) :
  Forall2 (λ x y, h y = g x) items mapped → omap h mapped = omap g items.
Proof. induction 1 as [|x y ?? Hxy _ IH]; csimpl; [done|]. by rewrite Hxy, IH. Qed.

Lemma transform_sources_urls (items : list value) :
  Forall (λ item, nullish item = false) items →
  ∃ out, transform_sources url_hostname items = Ok out
         ∧ s_url <$> out = omap (Fallback.first_present Fallback.source_url) items.
Proof.
  intros Hitems. unfold transform_sources.
  destruct (mapM_Forall2 (web_source url_hostname)
              (λ x o, s_url <$> o = Fallback.first_present Fallback.source_url x) items)
    as (mapped & -> & Hmapped).
  { eapply Forall_impl; [done|]. apply web_source_url. }
  eexists. split; [reflexivity|].
  rewrite <-(omap_Forall2 _ _ _ _ Hmapped).
  clear. induction mapped as [|[o|] rest IH]; csimpl; [done| |done]. by rewrite IH.
Qed.

Lemma transform_news_urls (items : list value) :
  Forall (λ item, nullish item = false) items →
  ∃ out, transform_news url_hostname items = Ok out
         ∧ n_url <$> out = omap (Fallback.first_present Fallback.news_url) items.
Proof.
  intros Hitems. unfold transform_news.
  destruct (mapM_Forall2 (news_item url_hostname)
              (λ x n, (if truthy (n_url n) then Some (n_url n) else None)
                      = Fallback.first_present Fallback.news_url x) items)
    as (mapped & -> & Hmapped).
  { eapply Forall_impl; [done|]. apply news_item_url. }
  eexists. split; [reflexivity|].
  rewrite <-(omap_Forall2 _ _ _ _ Hmapped).
  clear. induction mapped as [|n rest IH]; csimpl; [done|].
  rewrite filter_cons. destruct (truthy (n_url n)) eqn:Hn.
  - rewrite decide_True by done. csimpl. by rewrite IH.
  - by rewrite decide_False by done.
Qed.

Lemma transform_images_urls (items : list value) :
  Forall (λ item, nullish item = false) items →
  ∃ out, transform_images url_hostname items = Ok out
         ∧ i_url <$> out = omap (Fallback.first_present Fallback.image_url) items.
Proof.
  intros Hitems. unfold transform_images.
  destruct (mapM_Forall2 (image_item url_hostname)
              (λ x o, i_url <$> o = Fallback.first_present Fallback.image_url x) items)
    as (mapped & -> & Hmapped).
  { eapply Forall_impl; [done|]. apply image_item_url. }
  eexists. split; [reflexivity|].
  rewrite <-(omap_Forall2 _ _ _ _ Hmapped).
  clear. induction mapped as [|[o|] rest IH]; csimpl; [done| |done]. by rewrite IH.
Qed.

Lemma resolved_truthy {A} (url : A → value) (names : list string)
    (out : list A) (items : list value) :
  url <$> out = omap (Fallback.first_present names) items →
  Forall (λ x, truthy (url x) = true) out.
Proof.
  intros Hout. apply Forall_forall. intros x Hx.
  assert (Hu : url x ∈ omap (Fallback.first_present names) items).
  { rewrite <-Hout. by apply list_elem_of_fmap_2. }
  apply list_elem_of_omap in Hu as (item & _ & Hitem).
  by eapply first_present_truthy.
Qed.

(** C7, as the code has it.  When no result item of the three payloads
    is [null], normalisation completes; the [url] of the elements it
    keeps are, in the order of the items, the first truthy value of the
    candidate fields of each item, the items without such a value are
    left out, and so every element of the three collections has a
    truthy, in particular non-empty, [url]. *)
Theorem normalize_resolves_urls (webData newsData imagesData : value) :
  nullish webData = false →
  Forall (λ item, nullish item = false) (recover (webResults_of webData) []) →
  Forall (λ item, nullish item = false) (bestEffort_results "news" newsData) →
  Forall (λ item, nullish item = false) (bestEffort_results "images" imagesData) →
  ∃ found,
    normalize url_hostname webData newsData imagesData = Ok found
    ∧ s_url <$> sources found
      = omap (Fallback.first_present Fallback.source_url)
          (recover (webResults_of webData) [])
    ∧ n_url <$> newsResults found
      = omap (Fallback.first_present Fallback.news_url)
          (bestEffort_results "news" newsData)
    ∧ i_url <$> imageResults found
      = omap (Fallback.first_present Fallback.image_url)
          (bestEffort_results "images" imagesData)
    ∧ Forall (λ s, truthy (s_url s) = true) (sources found)
    ∧ Forall (λ n, truthy (n_url n) = true) (newsResults found)
    ∧ Forall (λ i, truthy (i_url i) = true) (imageResults found).
Proof.
  intros Hweb Hw Hn Hi. unfold normalize.
  unfold webResults_of in *. rewrite (get_present _ _ Hweb) in *. simpl in *.
  destruct (transform_sources_urls _ Hw) as (srcs & -> & Hsrcs).
  destruct (transform_news_urls _ Hn) as (nws & -> & Hnws).
  destruct (transform_images_urls _ Hi) as (imgs & -> & Himgs).
  simpl. eexists. split; [reflexivity|]. simpl.
  eauto 10 using resolved_truthy.
Qed.

End Normalisation.

(** A payload with a result under [href], a result without address and a
    text in place of a result; the news search failed. *)
Lemma normalize_sample :
  ∃ found,
    normalize Sample.hostname
      (VObj [ ("results", VArr [Sample.lyon; VObj [ ("title", VStr (lit "?")) ];
                                VStr (lit "stray")]) ])
      VNull (VObj [ ("images", VArr [Sample.paris]) ]) = Ok found
    ∧ s_url <$> sources found
      = [VStr (lit "http://example.com/lyon"); VNative "link"]
    ∧ newsResults found = []
    ∧ i_url <$> imageResults found = [VStr (lit "https://www.example.org/paris")].
Proof.
  destruct (normalize_resolves_urls Sample.hostname
              (VObj [ ("results", VArr [Sample.lyon; VObj [ ("title", VStr (lit "?")) ];
                                        VStr (lit "stray")]) ])
              VNull (VObj [ ("images", VArr [Sample.paris]) ]))
    as (found & Hfound & Hs & Hn & Hi & _).
  - reflexivity.
  - vm_compute. repeat constructor.
  - vm_compute. constructor.
  - vm_compute. repeat constructor.
  - exists found. split; [done|]. split; [exact Hs|]. split; [|exact Hi].
    by destruct (newsResults found).
Defined.

(** C7, as the claim has it, fails: a [null] among the results makes the
    normalisation throw. *)
Lemma normalize_throws_on_null_item :
  normalize Sample.hostname (VObj [ ("results", VArr [Sample.paris; VNull]) ])
    VNull VNull
  = Throw (TypeError_read "null" "url").
Proof. reflexivity. Qed.

(** ** Enrichment *)

Section Enrichment.

Variable Number : jsstring → number.

Lemma find_index_Some {A} (p : nat → A → bool) (k : nat) (l : list A) (j : nat) :
  find_index p k l = Some j →
  ∃ x, k ≤ j ∧ l !! (j - k) = Some x ∧ p j x = true.
Proof.
  revert k. induction l as [|y rest IH]; intros k Hfind; [done|].
  simpl in Hfind. destruct (p k y) eqn:Hp.
  - simplify_eq. exists y. by rewrite Nat.sub_diag.
  - destruct (IH _ Hfind) as (x & Hle & Hx & Hpx).
    exists x. split; [lia|]. split; [|done].
    by replace (j - k) with (S (j - S k)) by lia.
Qed.

Lemma find_index_first {A} (p : nat → A → bool) (k : nat) (l : list A) (i : nat) (x : A) :
  k ≤ i → l !! (i - k) = Some x → p i x = true →
  ∃ j, find_index p k l = Some j ∧ j ≤ i.
Proof.
  revert k. induction l as [|y rest IH]; intros k Hle Hx Hp; [done|].
  simpl. destruct (p k y) eqn:Hpk; [by eauto|].
  destruct (decide (i = k)) as [->|Hne].
  - rewrite Nat.sub_diag in Hx. simplify_eq/=. congruence.
  - apply (IH (S k)); [lia| |done].
    by replace (i - k) with (S (i - S k)) in Hx by lia.
Qed.

Lemma length_merge_one (i : nat) (r : result Scraped) (srcs : list Source) :
  length (merge_one i r srcs) = length srcs.
Proof.
  unfold merge_one. destruct r as [v|]; [|done].
  destruct (find_index _ _ _); [apply length_alter | done].
Qed.

Lemma length_merge_from (i : nat) (scraped : list (result Scraped)) (srcs : list Source) :
  length (merge_from i scraped srcs) = length srcs.
Proof.
  revert i srcs. induction scraped as [|r rest IH]; intros i srcs; simpl; [done|].
  by rewrite IH, length_merge_one.
Qed.

(** A step of the merge touches one source at most, one whose [url] is
    the scraped one, and replaces it by [merge_into]. *)
Lemma merge_one_lookup (i : nat) (r : result Scraped) (srcs : list Source)
    (k : nat) (s' : Source) :
  merge_one i r srcs !! k = Some s' →
  ∃ s, srcs !! k = Some s
       ∧ (s' = s ∨ ∃ v, r = Ok v ∧ same_url i (sc_url v) k s = true
                        ∧ s' = merge_into v s).
Proof.
  unfold merge_one. destruct r as [v|]; [|by eauto].
  destruct (find_index _ _ _) as [j|] eqn:Hfind; [|by eauto].
  rewrite list_lookup_alter. case_decide as Hjk; [|by eauto].
  subst j. destruct (srcs !! k) as [s|] eqn:Hs; [|done].
  intros [= <-]. exists s. split; [done|]. right. exists v.
  apply find_index_Some in Hfind as (x & _ & Hx & Hp).
  rewrite Nat.sub_0_r in Hx. by simplify_eq.
Qed.

(** The step for the target at position [i] leaves the sources after
    it alone: the target itself carries the scraped [url]. *)
Lemma merge_one_beyond (i : nat) (r : result Scraped) (srcs : list Source) (k : nat) :
  i < length srcs → i < k → merge_one i r srcs !! k = srcs !! k.
Proof.
  intros Hi Hk. unfold merge_one. destruct r as [v|]; [|done].
  destruct (lookup_lt_is_Some_2 srcs i Hi) as [x Hx].
  destruct (find_index_first (same_url i (sc_url v)) 0 srcs i x) as (j & -> & Hj).
  - lia.
  - by rewrite Nat.sub_0_r.
  - unfold same_url. rewrite Nat.eqb_refl. by destruct (strict_equals _ _).
  - apply list_lookup_alter_ne. lia.
Qed.

Lemma merge_from_beyond (i : nat) (scraped : list (result Scraped))
    (srcs : list Source) (k : nat) :
  i + length scraped ≤ length srcs → i + length scraped ≤ k →
  merge_from i scraped srcs !! k = srcs !! k.
Proof.
  revert i srcs. induction scraped as [|r rest IH]; intros i srcs Hlen Hk; [done|].
  simpl in *. rewrite IH; rewrite ?length_merge_one; [|lia..].
  apply merge_one_beyond; lia.
Qed.

Lemma augmented_refl (all : list (result Scraped)) (k : nat) (s : Source) :
  augmented all k s s.
Proof. unfold augmented, kept_or_fetched. naive_solver. Qed.

Lemma augmented_step (all : list (result Scraped)) (i k : nat) (v : Scraped)
    (s s0 : Source) :
  all !! i = Some (Ok v) →
  same_url i (sc_url v) k s0 = true →
  augmented all k s s0 →
  augmented all k s (merge_into v s0).
Proof.
  intros Hall Hsame (Hurl & ? & ? & ? & ? & ? & Hmd & Hct).
  assert (Hsame' : same_url i (sc_url v) k s = true).
  { unfold same_url in *. by rewrite <-Hurl. }
  repeat split; try done; unfold kept_or_fetched in *; simpl; unfold or.
  - destruct (truthy (sc_markdown v)) eqn:Hv; [|done].
    right. by exists i, v.
  - destruct (truthy (sc_content v)) eqn:Hv; [|done].
    right. by exists i, v.
Qed.

Lemma merge_from_augmented (all : list (result Scraped)) (i : nat)
    (scraped : list (result Scraped)) (cur orig : list Source) :
  (∀ j r, scraped !! j = Some r → all !! (i + j) = Some r) →
  (∀ k s', cur !! k = Some s' → ∃ s, orig !! k = Some s ∧ augmented all k s s') →
  ∀ k s', merge_from i scraped cur !! k = Some s' →
          ∃ s, orig !! k = Some s ∧ augmented all k s s'.
Proof.
  revert i cur. induction scraped as [|r rest IH]; intros i cur Hall Hcur; [done|].
  simpl. apply IH.
  - intros j r' Hj. replace (S i + j) with (i + S j) by lia. by apply Hall.
  - intros k s' Hk.
    apply merge_one_lookup in Hk as (s0 & Hs0 & Hstep).
    destruct (Hcur _ _ Hs0) as (s & Hs & Haug). exists s. split; [done|].
    destruct Hstep as [->|(v & -> & Hsame & ->)]; [done|].
    apply (augmented_step all i); [|done..].
    specialize (Hall 0 (Ok v) eq_refl). by rewrite Nat.add_0_r in Hall.
Qed.

End Enrichment.

(** ** Reading a trace, lemmas *)

(** Reads one kind of action off a trace given in pieces. *)
Lemma omap_fmap_None {A B C} (f : B → option C) (g : A → B) (l : list A) :
  (∀ x, f (g x) = None) → omap f (g <$> l) = [].
Proof. intros Hf. induction l as [|x rest IH]; csimpl; [done|]. by rewrite Hf. Qed.

Lemma omap_fmap_Some {A B C} (f : B → option C) (g : A → B) (h : A → C) (l : list A) :
  (∀ x, f (g x) = Some (h x)) → omap f (g <$> l) = h <$> l.
Proof.
  intros Hf. induction l as [|x rest IH]; csimpl; [done|]. by rewrite Hf, IH.
Qed.

Ltac read_trace :=
  repeat first
    [ rewrite omap_app
    | rewrite omap_fmap_None by done
    | erewrite omap_fmap_Some by (intros; reflexivity)
    | rewrite app_nil_r
    | progress csimpl ].

Lemma error_part_data_error (e : thrown) :
  ∃ err suggestion code, error_part e = data_error err suggestion code.
Proof.
  unfold error_part. destruct (_ ≫= errorResponses) as [[]|]; eauto.
Qed.

Lemma error_part_field (e : thrown) :
  ∃ err suggestion code,
    error_part e = data_error err suggestion code
    ∧ (has_text e → err ≠ []).
Proof.
  unfold error_part, has_text.
  destruct (match statusCode e with Some c => Some c | None => status e end)
    as [c|]; simpl.
  - destruct (c =? 0)%Z; simpl.
    + do 3 eexists. split; [reflexivity|].
      destruct (instance_of_Error e); [auto | by intros _].
    + unfold errorResponses.
      repeat (destruct (c =? _)%Z;
              [do 3 eexists; split; [reflexivity | by intros _]|]).
      do 3 eexists. split; [reflexivity|].
      destruct (instance_of_Error e); [auto | by intros _].
  - do 3 eexists. split; [reflexivity|].
    destruct (instance_of_Error e); [auto | by intros _].
Qed.

(** ** Lists of outcomes *)

Lemma mapM_Ok_Forall2 {A B} (f : A → result B) (l : list A) (ys : list B) :
  mapM f l = Ok ys → Forall2 (λ x y, f x = Ok y) l ys.
Proof.
  revert ys. induction l as [|x rest IH]; intros ys; simpl.
  - intros [= <-]. constructor.
  - destruct (f x) as [y|] eqn:Hx; [simpl|done].
    destruct (mapM f rest) as [ys'|]; [simpl|done].
    intros [= <-]. constructor; [done | by apply IH].
Qed.

Lemma mapM_all_Ok {A B} (f : A → result B) (g : A → B) (l : list A) :
  Forall (λ x, f x = Ok (g x)) l → mapM f l = Ok (g <$> l).
Proof.
  induction 1 as [|x rest Hx _ IH]; [done|].
  simpl. rewrite Hx. simpl. by rewrite IH.
Qed.

Lemma mapM_first_Throw {A B} (f : A → result B) (l : list A) :
  Exists (λ x, ∃ e, f x = Throw e) l →
  ∃ x e, x ∈ l ∧ f x = Throw e ∧ mapM f l = Throw e.
Proof.
  induction l as [|x rest IH]; intros H; [by inversion H|].
  simpl. destruct (f x) as [y|e] eqn:Hx.
  - destruct IH as (x' & e & Hin & Hx' & Hrest).
    { inversion H as [? ? (e & He)|]; subst; [congruence | done]. }
    exists x', e. split; [by right|]. split; [done|].
    simpl. by rewrite Hrest.
  - exists x, e. split; [by left | done].
Qed.

Lemma mapM_Throw_inv {A B} (f : A → result B) (l : list A) (e : thrown) :
  mapM f l = Throw e → ∃ x, x ∈ l ∧ f x = Throw e.
Proof.
  induction l as [|x rest IH]; simpl; [done|].
  destruct (f x) as [y|e'] eqn:Hx; simpl.
  - destruct (mapM f rest) as [ys|e']; simpl; [done|].
    intros [= ->]. destruct IH as (x' & Hin & Hx'); [done|].
    exists x'. split; [by right | done].
  - intros [= ->]. exists x. split; [by left | done].
Qed.

Lemma mapM_app_result {A B} (f : A → result B) (l k : list A) :
  mapM f (l ++ k) = (ys ← mapM f l; zs ← mapM f k; Ok (ys ++ zs)).
Proof.
  induction l as [|x rest IH]; simpl.
  - by destruct (mapM f k).
  - destruct (f x) as [y|]; simpl; [|done]. rewrite IH.
    destruct (mapM f rest) as [ys|]; simpl; [|done].
    by destruct (mapM f k).
Qed.

Lemma mapM_imap_Ok {A B} (f : nat → A → result B) (l : list A) :
  (∀ i x, l !! i = Some x → ∃ y, f i x = Ok y) →
  ∃ ys, mapM id (imap f l) = Ok ys.
Proof.
  revert f. induction l as [|x rest IH]; intros f Hf; [by exists []|].
  rewrite imap_cons. simpl.
  destruct (Hf 0 x eq_refl) as [y ->]. simpl.
  destruct (IH (f ∘ S)) as [ys ->]; [intros i x' Hi; apply (Hf (S i) x' Hi)|].
  by eexists.
Qed.

(** ** Rendering as text *)

(** A conversion to a string fails in one way only. *)
Lemma to_string_Throw (v : value) (e : thrown) :
  to_string v = Throw e → e = TypeError_primitive.
Proof.
  revert v e.
  fix IH 1. intros [| | [] | | | l | props | ] e; simpl; try done.
  - destruct ((fix each (l : list value) : result (list jsstring) := _) l)
      as [parts|e'] eqn:Heach; simpl; [done|].
    intros [= ->]. revert e Heach.
    induction l as [|x r IHl]; intros e; simpl; [done|].
    destruct (nullish x).
    + simpl. destruct ((fix each (l : list value) : result (list jsstring) := _) r)
        as [rest|e'] eqn:Hr; simpl; [done|].
      intros [= ->]. by apply IHl.
    + destruct (to_string x) as [s|e'] eqn:Hx; simpl.
      * destruct ((fix each (l : list value) : result (list jsstring) := _) r)
          as [rest|e''] eqn:Hr; simpl; [done|].
        intros [= ->]. by apply IHl.
      * intros [= ->]. by apply (IH x).
  - case_bool_decide; [by intros [= <-] | done].
Qed.

Lemma join_values_Throw (sep : jsstring) (l : list value) (e : thrown) :
  join_values sep l = Throw e → e = TypeError_primitive.
Proof.
  unfold join_values. destruct (mapM _ l) as [parts|e'] eqn:Hparts; simpl; [done|].
  intros [= ->]. apply mapM_Throw_inv in Hparts as (x & _ & Hx).
  destruct (nullish x); [done|]. by apply (to_string_Throw x).
Qed.

Lemma join_values_strings (sep : jsstring) (l : list jsstring) :
  join_values sep (VStr <$> l) = Ok (JsString.join sep l).
Proof.
  unfold join_values.
  rewrite (mapM_all_Ok _ (λ v, match v with VStr s => s | _ => [] end)).
  - simpl. f_equal. f_equal. rewrite <-list_fmap_compose. apply list_fmap_id.
  - apply Forall_forall. by intros v (s & -> & _)%list_elem_of_fmap.
Qed.

(** ** The stream *)

Section Stream.

Variable url_hostname : value → option jsstring.
Variable selectRelevantContent : value → jsstring → nat → result jsstring.
Variable detectCompanyTicker : jsstring → value.
Variable Number : jsstring → number.

Let run := execute url_hostname selectRelevantContent detectCompanyTicker Number.

Ltac flatten :=
  repeat first [rewrite <-app_assoc | rewrite app_nil_r | progress cbn [app]].

Lemma length_enrich (w : World) (srcs : list Source) :
  length (enrich Number w srcs) = length srcs.
Proof. apply length_merge_from. Qed.

(** What happens once the bundle is written, stage by stage. *)
Lemma closing_trace (w : World) (srcs : list Source) :
  closing selectRelevantContent detectCompanyTicker w srcs =
    (if bool_decide (0 < length srcs)
     then [ Write (data_status "status-2b" "Analyzing detailed content...") ]
     else [])
    ++ Write (data_status "status-3" "Analyzing sources and generating answer...")
    :: (if truthy (detectCompanyTicker (query w))
        then [ Write (data_ticker (detectCompanyTicker (query w))) ] else [])
    ++ match context_for selectRelevantContent w srcs with
       | Throw e => [ Write (error_part e) ]
       | Ok context =>
           StreamText context
           :: (Write ∘ text_delta <$> answer_deltas w context)
           ++ match answer_for w context with
              | Throw e => [ Write (error_part e) ]
              | Ok fullAnswer =>
                  GenerateText fullAnswer
                  :: match followUp_text w fullAnswer with
                     | Ok text => [ Write (data_followup (followUpQuestions text)) ]
                     | Throw _ => []
                     end
              end
       end.
Proof.
  unfold closing, generate, context_for, answer_for.
  destruct (bool_decide (0 < length srcs));
    destruct (truthy (detectCompanyTicker (query w)));
    (destruct (prepare_context _ _ _) as [context|e];
     [destruct (aiMessages w) as [[]|e]|]);
    cbn [mbind result_bind prog_bind emit write await mret prog_ret];
    try (destruct (answer_text w context) as [fullAnswer|e];
         [destruct (conversationPreview w) as [preview|e]|];
         cbn [mbind result_bind prog_bind emit write await mret prog_ret]);
    try destruct (followUp_text w fullAnswer);
    cbn; flatten; reflexivity.
Qed.

(** A stage that throws after the bundle puts its error part last. *)
Lemma closing_ends_in_error (w : World) (srcs : list Source) (e : thrown) :
  context_for selectRelevantContent w srcs ≫= answer_for w = Throw e →
  ∃ before,
    closing selectRelevantContent detectCompanyTicker w srcs
    = before ++ [ Write (error_part e) ].
Proof.
  intros He. rewrite closing_trace.
  destruct (context_for _ _ _) as [context|e']; cbn [mbind result_bind] in He.
  - rewrite He.
    exists ((if bool_decide (0 < length srcs)
             then [ Write (data_status "status-2b" "Analyzing detailed content...") ]
             else [])
            ++ Write (data_status "status-3"
                        "Analyzing sources and generating answer...")
            :: (if truthy (detectCompanyTicker (query w))
                then [ Write (data_ticker (detectCompanyTicker (query w))) ] else [])
            ++ StreamText context
            :: (Write ∘ text_delta <$> answer_deltas w context)).
    rewrite <-?app_assoc. cbn [app]. rewrite <-?app_assoc. reflexivity.
  - injection He as ->.
    exists ((if bool_decide (0 < length srcs)
             then [ Write (data_status "status-2b" "Analyzing detailed content...") ]
             else [])
            ++ Write (data_status "status-3"
                        "Analyzing sources and generating answer...")
            :: (if truthy (detectCompanyTicker (query w))
                then [ Write (data_ticker (detectCompanyTicker (query w))) ] else [])).
    rewrite <-?app_assoc. cbn [app]. rewrite <-?app_assoc. reflexivity.
Qed.

(** The trace of a request whose search and normalisation succeed. *)
Lemma execute_found (w : World) (webData : value) (found : SearchBundle) :
  performSourceSearch (searx w general) = Ok webData →
  normalize url_hostname webData (bestEffort (searx w news))
    (bestEffort (searx w images)) = Ok found →
  let srcs := if bool_decide (0 < length (sources found))
              then enrich Number w (sources found) else sources found in
  run w =
    [ Write (data_status "status-1" "Starting search...");
      Write (data_status "status-2" "Searching for relevant sources...");
      FetchSearch general; FetchSearch news; FetchSearch images ]
    ++ (if bool_decide (0 < length (sources found))
        then Write (data_status "status-3a" "Fetching full article content...")
             :: ((λ source, FetchScrape (s_url source))
                   <$> targets Number w (sources found))
             ++ [ Write (data_sources (bundle srcs found)) ]
        else [ Write (data_sources (bundle srcs found)) ])
    ++ closing selectRelevantContent detectCompanyTicker w srcs.
Proof.
  intros Hsearch Hfound srcs.
  unfold run, execute, closing, pipeline, fan_out.
  rewrite Hsearch. cbn [mbind prog_bind emit write await mret prog_ret app].
  rewrite Hfound. subst srcs.
  destruct (bool_decide (0 < length (sources found)));
    cbn [mbind prog_bind emit write await mret prog_ret app];
    destruct (generate _ _ _ _) as [log [[]|e]];
    cbn; flatten; reflexivity.
Qed.

Lemma execute_search_failed (w : World) (e : thrown) :
  performSourceSearch (searx w general) = Throw e →
  run w =
    [ Write (data_status "status-1" "Starting search...");
      Write (data_status "status-2" "Searching for relevant sources...");
      FetchSearch general; FetchSearch news; FetchSearch images;
      Write (error_part e) ].
Proof.
  intros Hsearch. unfold run, execute, pipeline, fan_out.
  by rewrite Hsearch.
Qed.

Lemma execute_normalize_failed (w : World) (webData : value) (e : thrown) :
  performSourceSearch (searx w general) = Ok webData →
  normalize url_hostname webData (bestEffort (searx w news))
    (bestEffort (searx w images)) = Throw e →
  run w =
    [ Write (data_status "status-1" "Starting search...");
      Write (data_status "status-2" "Searching for relevant sources...");
      FetchSearch general; FetchSearch news; FetchSearch images;
      Write (error_part e) ].
Proof.
  intros Hsearch Hfound. unfold run, execute, pipeline, fan_out.
  rewrite Hsearch. cbn [mbind prog_bind emit write await mret prog_ret app].
  by rewrite Hfound.
Qed.

(** What the stages after the bundle leave on the stream. *)
Lemma observe_closing (w : World) (srcs : list Source) :
  let rest := closing selectRelevantContent detectCompanyTicker w srcs in
  let reached := context_for selectRelevantContent w srcs in
  bundles rest = []
  ∧ scrape_requests rest = []
  ∧ contexts rest = match reached with Ok context => [ context ] | Throw _ => [] end
  ∧ text_deltas rest
    = match reached with Ok context => answer_deltas w context | Throw _ => [] end
  ∧ error_fields rest
    = match reached ≫= answer_for w with
      | Throw e => error_fields [ Write (error_part e) ]
      | Ok _ => []
      end
  ∧ followup_calls rest
    = match reached ≫= answer_for w with Ok full => [ full ] | Throw _ => [] end
  ∧ followups rest
    = match reached ≫= answer_for w with
      | Ok full => match followUp_text w full with
                   | Ok text => [ followUpQuestions text ]
                   | Throw _ => []
                   end
      | Throw _ => []
      end
  ∧ tickers rest
    = (if truthy (detectCompanyTicker (query w))
       then [ detectCompanyTicker (query w) ] else [])
  ∧ statuses rest
    = (if bool_decide (0 < length srcs) then [ "status-2b"; "status-3" ]
       else [ "status-3" ]).
Proof.
  intros rest reached. unfold rest, reached. rewrite closing_trace.
  unfold bundles, scrape_requests, contexts, text_deltas, error_fields,
    followup_calls, followups, tickers, statuses.
  repeat split;
    destruct (bool_decide _); destruct (truthy _);
    destruct (context_for _ _ _) as [context|e];
    cbn [mbind result_bind];
    try destruct (answer_for w context) as [full|e];
    try destruct (followUp_text w full);
    try destruct (error_part_data_error e) as (? & ? & ? & ->);
    read_trace; first [done | apply list_fmap_id].
Qed.

(** What a successful search leaves on the stream. *)
Lemma observe_found (w : World) (webData : value) (found : SearchBundle) :
  performSourceSearch (searx w general) = Ok webData →
  normalize url_hostname webData (bestEffort (searx w news))
    (bestEffort (searx w images)) = Ok found →
  let srcs := if bool_decide (0 < length (sources found))
              then enrich Number w (sources found) else sources found in
  let reached := context_for selectRelevantContent w srcs in
  bundles (run w) = [ bundle srcs found ]
  ∧ scrape_requests (run w)
    = (if bool_decide (0 < length (sources found))
       then s_url <$> targets Number w (sources found) else [])
  ∧ contexts (run w)
    = match reached with Ok context => [ context ] | Throw _ => [] end
  ∧ text_deltas (run w)
    = match reached with Ok context => answer_deltas w context | Throw _ => [] end
  ∧ error_fields (run w)
    = match reached ≫= answer_for w with
      | Throw e => error_fields [ Write (error_part e) ]
      | Ok _ => []
      end.
Proof.
  intros Hsearch Hfound srcs reached.
  rewrite (execute_found w webData found Hsearch Hfound).
  fold srcs.
  destruct (observe_closing w srcs) as (Hb & Hs & Hc & Hd & He & _).
  unfold bundles, scrape_requests, contexts, text_deltas, error_fields in *.
  rewrite !omap_app, Hb, Hs, Hc, Hd, He. fold reached.
  repeat split; destruct (bool_decide _); read_trace; done.
Qed.

(** The readings of the follow-up, the ticker and the statuses. *)
Lemma observe_rest (w : World) (webData : value) (found : SearchBundle) :
  performSourceSearch (searx w general) = Ok webData →
  normalize url_hostname webData (bestEffort (searx w news))
    (bestEffort (searx w images)) = Ok found →
  let srcs := if bool_decide (0 < length (sources found))
              then enrich Number w (sources found) else sources found in
  let reached := context_for selectRelevantContent w srcs in
  followup_calls (run w)
  = match reached ≫= answer_for w with Ok full => [ full ] | Throw _ => [] end
  ∧ followups (run w)
    = match reached ≫= answer_for w with
      | Ok full => match followUp_text w full with
                   | Ok text => [ followUpQuestions text ]
                   | Throw _ => []
                   end
      | Throw _ => []
      end
  ∧ tickers (run w)
    = (if truthy (detectCompanyTicker (query w))
       then [ detectCompanyTicker (query w) ] else [])
  ∧ statuses (run w)
    = (if bool_decide (0 < length (sources found))
       then [ "status-1"; "status-2"; "status-3a"; "status-2b"; "status-3" ]
       else [ "status-1"; "status-2"; "status-3" ]).
Proof.
  intros Hsearch Hfound srcs reached.
  rewrite (execute_found w webData found Hsearch Hfound).
  fold srcs.
  destruct (observe_closing w srcs) as (_ & _ & _ & _ & _ & Hc & Hf & Ht & Hs).
  unfold followup_calls, followups, tickers, statuses in *.
  rewrite !omap_app, Hc, Hf, Ht, Hs. fold reached.
  assert (Hlen : bool_decide (0 < length srcs)
                 = bool_decide (0 < length (sources found))).
  { unfold srcs. destruct (bool_decide (0 < length (sources found))) eqn:Hsome;
      [by rewrite length_enrich | done]. }
  rewrite Hlen.
  repeat split; destruct (bool_decide _); read_trace; done.
Qed.

(** Whatever the search helper throws has a text, when the rejections
    of [fetch] and of [response.json()] have one. *)
Lemma performSourceSearch_text (reply : result Response) (e : thrown) :
  (∀ r, reply = Throw r → has_text r) →
  (∀ response r, reply = Ok response → json response = Throw r → has_text r) →
  performSourceSearch reply = Throw e → has_text e.
Proof.
  intros Hfetch Hjson. unfold performSourceSearch.
  destruct reply as [response|r]; simpl; [|intros [= <-]; by apply Hfetch].
  destruct (ok response); simpl.
  - destruct (json response) as [j|r] eqn:Hj; simpl; [done|].
    intros [= <-]. by apply (Hjson response).
  - destruct (get (recover (json response) (VObj [])) "error") as [detail|e'] eqn:Hget.
    + rewrite orM_Ok. simpl.
      destruct (to_string _) as [text|e'] eqn:Ht; simpl; intros [= <-].
      * intros _. discriminate.
      * apply to_string_Throw in Ht as ->. intros _. discriminate.
    + simpl. intros [= <-].
      destruct (recover _ _); simplify_eq/=; intros _; discriminate.
Qed.

(** C3.  On a platform whose rejections of [fetch] and of
    [response.json()] carry a text: when the required search throws,
    the trace ends with the one [data-error] part made from the thrown
    value, and its [error] field is not empty; there is no
    [data-sources] part, no chunk of an answer and no call of a later
    stage (scrape, answer generation, follow-up generation). *)
Theorem required_search_failure (w : World) (e : thrown) :
  (∀ r, searx w general = Throw r → has_text r) →
  (∀ response r, searx w general = Ok response → json response = Throw r →
                 has_text r) →
  performSourceSearch (searx w general) = Throw e →
  run w =
    [ Write (data_status "status-1" "Starting search...");
      Write (data_status "status-2" "Searching for relevant sources...");
      FetchSearch general; FetchSearch news; FetchSearch images;
      Write (error_part e) ]
  ∧ bundles (run w) = []
  ∧ text_deltas (run w) = []
  ∧ filter (λ a, later_stage a = true) (run w) = []
  ∧ ∃ err, error_fields (run w) = [ err ] ∧ err ≠ [].
Proof.
  intros Hfetch Hjson Hsearch. rewrite (execute_search_failed w e Hsearch).
  destruct (error_part_field e) as (err & suggestion & code & Hpart & Herr).
  rewrite Hpart. repeat split; try done.
  exists err. split; [done|].
  apply Herr, (performSourceSearch_text (searx w general)); done.
Qed.

(** What the search helper returns is never [null]: it gives [{}] for a
    falsy body. *)
Lemma performSourceSearch_present (reply : result Response) (webData : value) :
  performSourceSearch reply = Ok webData → nullish webData = false.
Proof.
  unfold performSourceSearch. destruct reply as [response|]; [simpl|done].
  destruct (ok response); simpl.
  - destruct (json response) as [j|]; [simpl|done].
    intros [= <-]. unfold or. destruct (truthy j) eqn:Hj; [|done]. by destruct j.
  - destruct (_ ||| _); simpl; [|done]. by destruct (to_string _).
Qed.

Lemma bestEffort_failed (r : result Response) (e : thrown) :
  performSourceSearch r = Throw e → bestEffort r = VNull.
Proof. unfold bestEffort. by intros ->. Qed.

Lemma normalize_without (c : category) (webData newsData imagesData : value)
    (found : SearchBundle) :
  c ≠ general →
  match c with news => newsData | _ => imagesData end = VNull →
  normalize url_hostname webData newsData imagesData = Ok found →
  collection c found = [].
Proof.
  intros Hc Hnull. unfold normalize.
  destruct (webResults_of webData) as [webResults|]; [simpl|done].
  destruct (transform_sources _ _) as [srcs|]; [simpl|done].
  destruct c; [done | |]; subst.
  - simpl. destruct (transform_images _ _); simpl; [|done]. by intros [= <-].
  - destruct (transform_news _ _); simpl; [|done]. by intros [= <-].
Qed.

(** A failed best-effort search is read like a search without result. *)
Lemma run_without (w : World) (c : category) (e : thrown) :
  c ≠ general →
  performSourceSearch (searx w c) = Throw e →
  run w = run (with_searx w c no_results).
Proof.
  intros Hc Hfail. apply bestEffort_failed in Hfail.
  assert (Hgeneral : performSourceSearch (searx (with_searx w c no_results) general)
                     = performSourceSearch (searx w general)).
  { simpl. by rewrite bool_decide_false. }
  assert (Hnorm : ∀ webData,
    normalize url_hostname webData
      (bestEffort (searx (with_searx w c no_results) news))
      (bestEffort (searx (with_searx w c no_results) images))
    = normalize url_hostname webData (bestEffort (searx w news))
        (bestEffort (searx w images))).
  { intros webData. destruct c; [done| |]; simpl; by rewrite Hfail. }
  destruct (performSourceSearch (searx w general)) as [webData|e0] eqn:Hsearch.
  - destruct (normalize url_hostname webData (bestEffort (searx w news))
                (bestEffort (searx w images))) as [found|e1] eqn:Hfound.
    + rewrite (execute_found w webData found Hsearch Hfound).
      rewrite (execute_found (with_searx w c no_results) webData found);
        [done | done | by rewrite Hnorm].
    + rewrite (execute_normalize_failed w webData e1 Hsearch Hfound).
      by rewrite (execute_normalize_failed (with_searx w c no_results) webData e1);
        [ | | rewrite Hnorm].
  - rewrite (execute_search_failed w e0 Hsearch).
    by rewrite (execute_search_failed (with_searx w c no_results) e0).
Qed.

(** C4.  When the general search succeeds and the news or the images
    search throws, every bundle on the stream has an empty collection
    for that category, and the trace is the one of the same request
    with a search of that category that found nothing: the failure
    adds no [data-error] part.  The request ends without such a part
    exactly when no later stage throws: normalisation, context
    building and message conversion, answer generation and preview. *)
Theorem best_effort_failure (w : World) (c : category) (webData : value) (e : thrown) :
  c ≠ general →
  performSourceSearch (searx w general) = Ok webData →
  performSourceSearch (searx w c) = Throw e →
  (∀ b, b ∈ bundles (run w) → collection c b = [])
  ∧ run w = run (with_searx w c no_results)
  ∧ (error_fields (run w) = [] ↔
     ∃ found context fullAnswer,
       normalize url_hostname webData (bestEffort (searx w news))
         (bestEffort (searx w images)) = Ok found
       ∧ context_for selectRelevantContent w
           (if bool_decide (0 < length (sources found))
            then enrich Number w (sources found) else sources found)
         = Ok context
       ∧ answer_for w context = Ok fullAnswer).
Proof.
  intros Hc Hsearch Hfail. split; [|split].
  - intros b Hb.
    destruct (normalize url_hostname webData (bestEffort (searx w news))
                (bestEffort (searx w images))) as [found|e1] eqn:Hfound.
    + destruct (observe_found w webData found Hsearch Hfound) as (Hbundles & _).
      rewrite Hbundles in Hb. apply list_elem_of_singleton in Hb as ->.
      destruct c; [done| |]; simpl.
      * apply (normalize_without news _ _ _ _ Hc (bestEffort_failed _ _ Hfail) Hfound).
      * apply (normalize_without images _ _ _ _ Hc (bestEffort_failed _ _ Hfail) Hfound).
    + rewrite (execute_normalize_failed w webData e1 Hsearch Hfound) in Hb.
      destruct (error_part_data_error e1) as (? & ? & ? & Hpart).
      rewrite Hpart in Hb. by apply elem_of_nil in Hb.
  - by apply (run_without w c e).
  - destruct (normalize url_hostname webData (bestEffort (searx w news))
                (bestEffort (searx w images))) as [found|e1] eqn:Hfound.
    + destruct (observe_found w webData found Hsearch Hfound)
        as (_ & _ & _ & _ & ->).
      destruct (context_for _ _ _) as [context|e2] eqn:Hcontext;
        cbn [mbind result_bind].
      * destruct (answer_for w context) as [fullAnswer|e2] eqn:Hanswer.
        -- split; [|done]. intros _. by exists found, context, fullAnswer.
        -- destruct (error_part_data_error e2) as (? & ? & ? & ->).
           split; [done|]. intros (? & ? & ? & [= <-] & Hc' & Ha'). congruence.
      * destruct (error_part_data_error e2) as (? & ? & ? & ->).
        split; [done|]. intros (? & ? & ? & [= <-] & Hc' & _). congruence.
    + rewrite (execute_normalize_failed w webData e1 Hsearch Hfound).
      destruct (error_part_data_error e1) as (? & ? & ? & ->).
      split; [done|]. by intros (? & ? & ? & ? & _).
Qed.

Lemma bundle_same (found : SearchBundle) : bundle (sources found) found = found.
Proof. by destruct found. Qed.

(** C8, as the code has it.  When the search and the normalisation
    succeed, the bundle is written once.  With web sources, the one
    [data-sources] part comes after all the scrape requests and
    carries the enriched sources; without, the collected bundle is
    written as it is and no scrape request is made. *)
Theorem sources_written_once (w : World) (webData : value) (found : SearchBundle) :
  performSourceSearch (searx w general) = Ok webData →
  normalize url_hostname webData (bestEffort (searx w news))
    (bestEffort (searx w images)) = Ok found →
  length (bundles (run w)) = 1
  ∧ (sources found ≠ [] →
     ∃ before after,
       run w = before
               ++ Write (data_sources (bundle (enrich Number w (sources found)) found))
               :: after
       ∧ bundles before = [] ∧ bundles after = []
       ∧ scrape_requests before = s_url <$> targets Number w (sources found)
       ∧ scrape_requests after = [])
  ∧ (sources found = [] →
     bundles (run w) = [ found ] ∧ scrape_requests (run w) = []).
Proof.
  intros Hsearch Hfound.
  destruct (observe_found w webData found Hsearch Hfound)
    as (Hbundles & Hscrapes & _).
  split; [by rewrite Hbundles|]. split.
  - intros Hsome.
    assert (Hlen : bool_decide (0 < length (sources found)) = true).
    { apply bool_decide_eq_true. destruct (sources found); [done | simpl; lia]. }
    pose proof (execute_found w webData found Hsearch Hfound) as Hrun.
    rewrite Hlen in Hrun. cbv zeta in Hrun.
    destruct (observe_closing w (enrich Number w (sources found)))
      as (Hb & Hs & _).
    exists ([ Write (data_status "status-1" "Starting search...");
              Write (data_status "status-2" "Searching for relevant sources...");
              FetchSearch general; FetchSearch news; FetchSearch images;
              Write (data_status "status-3a" "Fetching full article content...") ]
            ++ ((λ source, FetchScrape (s_url source))
                  <$> targets Number w (sources found))),
      (closing selectRelevantContent detectCompanyTicker w
         (enrich Number w (sources found))).
    split; [|split; [|split; [|split]]].
    + rewrite Hrun. cbn [app]. by rewrite <-!app_assoc.
    + unfold bundles. by read_trace.
    + exact Hb.
    + unfold scrape_requests. by read_trace.
    + exact Hs.
  - intros Hnone. rewrite Hbundles, Hscrapes, Hnone. simpl.
    by rewrite <-Hnone, bundle_same.
Qed.

(** C6.  Enrichment keeps the length of the list and, position by
    position, the [url] and every other field but [markdown] and
    [content]; each of these two either keeps its value or takes the
    truthy value fetched for a target with the same [url], a target
    being one of the first sources of the list. *)
Theorem enrich_only_augments (w : World) (srcs : list Source) :
  let scraped := allSettled w (targets Number w srcs) in
  length (enrich Number w srcs) = length srcs
  ∧ (∀ k s', enrich Number w srcs !! k = Some s' →
             ∃ s, srcs !! k = Some s ∧ augmented scraped k s s')
  ∧ (∀ i v, scraped !! i = Some (Ok v) →
            ∃ target, srcs !! i = Some target ∧ sc_url v = s_url target).
Proof.
  intros scraped. split; [apply length_enrich|]. split.
  - apply (merge_from_augmented scraped 0 scraped srcs srcs); [done|].
    intros k s' Hk. exists s'. split; [done | apply augmented_refl].
  - intros i v Hi. unfold scraped, allSettled in Hi.
    rewrite list_lookup_imap in Hi.
    destruct (targets Number w srcs !! i) as [target|] eqn:Htarget; [|done].
    exists target. split.
    + unfold targets in Htarget. by apply lookup_take_Some in Htarget as [? _].
    + simpl in Hi. injection Hi as Hi. unfold scrape_one in Hi.
      destruct (firecrawl w i) as [response|]; [simpl in Hi|done].
      destruct (ok response); simpl in Hi.
      * destruct (json response) as [scrapeJson|]; [simpl in Hi|done].
        destruct (get scrapeJson "data"); [simpl in Hi|done].
        by injection Hi as <-.
      * destruct (_ ||| _); simpl in Hi; [|done]. by destruct (to_string _).
Qed.

Lemma scrapeLimit_positive (p : number) : (1 ≤ Z.max 1 (scrapeLimit p))%Z.
Proof. lia. Qed.

(** C5.  The number L of sources to enrich is fixed by the text of
    [FIRECRAWL_SCRAPE_LIMIT]: it is 5 when the variable is not set;
    when it is set to a text that [Number] reads as a finite number
    above zero, L is the integer part of that number, raised to 1 when
    that is 0; and it is 5 for every other text (not a number, an
    infinity, zero or negative).  L is at least 1.  The targets of the
    scrape requests are the first L sources, in order; the sources
    after them are not changed; and the requests on the trace are
    those of the targets. *)
Theorem enrichment_limit (w : World) (srcs : list Source) :
  let configured := env w !! "FIRECRAWL_SCRAPE_LIMIT" in
  let L := Z.max 1 (scrapeLimit (parsedLimit Number w)) in
  (1 ≤ L)%Z
  ∧ (configured = None → L = 5%Z)
  ∧ (∀ text q, configured = Some text → Number text = Finite q →
          QArith_base.Qlt (QArith_base.inject_Z 0) q →
          L = Z.max 1 (Qround.Qfloor q)
          ∧ QArith_base.Qle (QArith_base.inject_Z (Qround.Qfloor q)) q
          ∧ QArith_base.Qlt q (QArith_base.inject_Z (Qround.Qfloor q + 1)))
  ∧ (∀ text, configured = Some text →
          (∀ q, Number text = Finite q →
                QArith_base.Qle q (QArith_base.inject_Z 0)) → L = 5%Z)
  ∧ targets Number w srcs = take (Z.to_nat L) srcs
  ∧ length (allSettled w (targets Number w srcs)) = Z.to_nat L `min` length srcs
  ∧ (∀ k, Z.to_nat L ≤ k → enrich Number w srcs !! k = srcs !! k)
  ∧ (∀ webData found,
       performSourceSearch (searx w general) = Ok webData →
       normalize url_hostname webData (bestEffort (searx w news))
         (bestEffort (searx w images)) = Ok found →
       scrape_requests (run w) = s_url <$> take (Z.to_nat L) (sources found)).
Proof.
  intros configured L. split; [apply scrapeLimit_positive|].
  split; [|split; [|split; [|split; [|split; [|split]]]]].
  - intros Hunset. unfold L, parsedLimit. fold configured. by rewrite Hunset.
  - intros text q Hset Hq Hpos. unfold L, parsedLimit. fold configured.
    rewrite Hset, Hq. simpl.
    split; [|split; [apply Qround.Qfloor_le | apply Qround.Qlt_floor]].
    destruct (QArith_base.Qle_bool q _) eqn:Hle; [|done].
    apply QArith_base.Qle_bool_iff in Hle.
    by apply QArith_base.Qle_not_lt in Hle.
  - intros text Hset Hnon. unfold L, parsedLimit. fold configured. rewrite Hset.
    destruct (Number text) as [| |q] eqn:Hq; [done..|]. simpl.
    by rewrite (proj2 (QArith_base.Qle_bool_iff _ _) (Hnon q eq_refl)).
  - done.
  - unfold allSettled, targets. by rewrite length_imap, length_take.
  - intros k Hk. apply merge_from_beyond.
    + unfold allSettled, targets. rewrite length_imap, length_take. lia.
    + unfold allSettled, targets. rewrite length_imap, length_take. fold L. lia.
  - intros webData found Hsearch Hfound.
    destruct (observe_found w webData found Hsearch Hfound) as (_ & -> & _).
    case_bool_decide as Hlen; [done|].
    destruct (sources found); [by rewrite take_nil | simpl in Hlen; lia].
Qed.

Lemma best_content_or (s : Source) :
  or (or (s_markdown s) (s_content s)) (VStr []) = Fallback.best_content s.
Proof.
  unfold Fallback.best_content, or.
  destruct (truthy (s_markdown s)) eqn:Hmd; cbv beta iota; rewrite ?Hmd;
    [reflexivity|].
  by destruct (truthy (s_content s)).
Qed.

(** The parts of a block. *)
Lemma context_block_Ok (q : jsstring) (i : nat) (s : Source) (block : jsstring) :
  context_block selectRelevantContent q i s = Ok block ↔
  ∃ title url content,
    to_string (s_title s) = Ok title ∧ to_string (s_url s) = Ok url
    ∧ selectRelevantContent (Fallback.best_content s) q 2000 = Ok content
    ∧ block = lit "[" ++ JsString.of_nat (i + 1) ++ lit "] " ++ title
              ++ [JsString.LF] ++ lit "URL: " ++ url ++ [JsString.LF] ++ content.
Proof.
  unfold context_block. cbv zeta. rewrite best_content_or.
  destruct (selectRelevantContent _ q 2000) as [content|];
    cbn [mbind result_bind]; [|by split; [|intros (? & ? & ? & ? & ? & ? & _)]].
  destruct (to_string (s_title s)) as [title|];
    cbn [mbind result_bind]; [|by split; [|intros (? & ? & ? & ? & _)]].
  destruct (to_string (s_url s)) as [url|];
    cbn [mbind result_bind]; [|by split; [|intros (? & ? & ? & ? & ? & _)]].
  split.
  - intros [= <-]. by exists title, url, content.
  - by intros (? & ? & ? & [= <-] & [= <-] & [= <-] & ->).
Qed.

Lemma prepare_context_Ok (q : jsstring) (srcs : list Source) (context : jsstring) :
  prepare_context selectRelevantContent q srcs = Ok context →
  ∃ blocks, context = JsString.join separator blocks
            ∧ Forall2 (λ r block, r = Ok block)
                (imap (context_block selectRelevantContent q) srcs) blocks.
Proof.
  unfold prepare_context.
  destruct (mapM id _) as [blocks|] eqn:Hblocks; cbn [mbind result_bind]; [|done].
  intros [= <-]. exists blocks. split; [done|].
  by apply mapM_Ok_Forall2 in Hblocks.
Qed.

(** C1, as the code has it.  When the context of a list of sources is
    built, it is the concatenation, with a separator between two of
    them, of one block per source in the order of the list; the block
    of the source at position i starts with the marker [i+1] and holds
    the text of the title, the text of the address and what the
    selector returns for the best content of the source (its
    [markdown], else its [content], else the empty string) with a
    budget of 2000.  The context is built exactly when, for every
    source, the selector returns and the title and the address can be
    rendered as text; appending a source appends its block.  The
    context handed to the answer generation is the one of the
    [sources] of the bundle written on the stream; and when that one
    cannot be built, the answer generation is not called and the trace
    ends with the error part of what was thrown. *)
Theorem context_follows_sources (w : World) (q : jsstring) (srcs : list Source) :
  (∀ context, prepare_context selectRelevantContent q srcs = Ok context →
     ∃ blocks,
       context = JsString.join separator blocks
       ∧ length blocks = length srcs
       ∧ ∀ i s, srcs !! i = Some s →
           ∃ title url content,
             to_string (s_title s) = Ok title
             ∧ to_string (s_url s) = Ok url
             ∧ selectRelevantContent (Fallback.best_content s) q 2000 = Ok content
             ∧ blocks !! i
               = Some (lit "[" ++ JsString.of_nat (i + 1) ++ lit "] " ++ title
                       ++ [JsString.LF] ++ lit "URL: " ++ url
                       ++ [JsString.LF] ++ content))
  ∧ ((∃ context, prepare_context selectRelevantContent q srcs = Ok context) ↔
     Forall (λ s, (∃ content,
                     selectRelevantContent (Fallback.best_content s) q 2000
                     = Ok content)
                  ∧ (∃ title, to_string (s_title s) = Ok title)
                  ∧ (∃ url, to_string (s_url s) = Ok url)) srcs)
  ∧ prepare_context selectRelevantContent q [] = Ok []
  ∧ (∀ s context block,
       prepare_context selectRelevantContent q srcs = Ok context →
       context_block selectRelevantContent q (length srcs) s = Ok block →
       prepare_context selectRelevantContent q (srcs ++ [s])
       = Ok (context ++ (if srcs is [] then [] else separator) ++ block))
  ∧ (∀ context, context ∈ contexts (run w) →
       ∃ b, bundles (run w) = [ b ]
            ∧ prepare_context selectRelevantContent (query w) (sources b)
              = Ok context)
  ∧ (∀ b e, b ∈ bundles (run w) →
       prepare_context selectRelevantContent (query w) (sources b) = Throw e →
       contexts (run w) = [] ∧ text_deltas (run w) = []
       ∧ last (run w) = Some (Write (error_part e))).
Proof.
  split; [|split; [|split; [done|split; [|split]]]].
  - intros context (blocks & -> & Hblocks)%prepare_context_Ok.
    exists blocks. split; [done|].
    split; [by rewrite <-(Forall2_length _ _ _ Hblocks), length_imap|].
    intros i s Hs.
    destruct (Forall2_lookup_l _ _ _ i (context_block selectRelevantContent q i s)
                Hblocks) as (block & Hblock & Hmade).
    { by rewrite list_lookup_imap, Hs. }
    apply context_block_Ok in Hmade as (title & url & content & ? & ? & ? & ->).
    by exists title, url, content.
  - split.
    + intros (context & (blocks & _ & Hblocks)%prepare_context_Ok).
      apply Forall_lookup. intros i s Hs.
      destruct (Forall2_lookup_l _ _ _ i (context_block selectRelevantContent q i s)
                  Hblocks) as (block & _ & Hmade).
      { by rewrite list_lookup_imap, Hs. }
      apply context_block_Ok in Hmade as (title & url & content & ? & ? & ? & _).
      repeat split; by eexists.
    + intros Hall. unfold prepare_context.
      destruct (mapM_imap_Ok (context_block selectRelevantContent q) srcs)
        as [blocks ->]; [|by eexists].
      intros i s Hs.
      destruct (proj1 (Forall_lookup _ _) Hall i s Hs)
        as ((content & Hc) & (title & Ht) & (url & Hu)).
      eexists. apply context_block_Ok. by exists title, url, content.
  - intros s context block. unfold prepare_context.
    rewrite imap_app, mapM_app_result.
    destruct (mapM id (imap _ srcs)) as [blocks|] eqn:Hblocks;
      cbn [mbind result_bind]; [|done].
    intros [= <-]. cbn [imap]. rewrite Nat.add_0_r. intros ->.
    cbn [mapM mbind result_bind mret result_ret id]. f_equal.
    rewrite join_snoc.
    apply mapM_Ok_Forall2, Forall2_length in Hblocks.
    rewrite length_imap in Hblocks.
    by destruct srcs, blocks.
  - intros context Hcontext.
    destruct (performSourceSearch (searx w general)) as [webData|e] eqn:Hsearch.
    + destruct (normalize url_hostname webData (bestEffort (searx w news))
                  (bestEffort (searx w images))) as [found|e] eqn:Hfound.
      * destruct (observe_found w webData found Hsearch Hfound)
          as (Hb & _ & Hc & _).
        rewrite Hc in Hcontext. rewrite Hb. eexists. split; [done|].
        simpl. unfold context_for in Hcontext.
        destruct (prepare_context _ _ _) as [context'|];
          cbn [mbind result_bind] in Hcontext; [|by apply elem_of_nil in Hcontext].
        destruct (aiMessages w); cbn [mbind result_bind] in Hcontext;
          [|by apply elem_of_nil in Hcontext].
        by apply list_elem_of_singleton in Hcontext as ->.
      * rewrite (execute_normalize_failed w webData e Hsearch Hfound) in Hcontext.
        destruct (error_part_data_error e) as (? & ? & ? & Hpart).
        rewrite Hpart in Hcontext. by apply elem_of_nil in Hcontext.
    + rewrite (execute_search_failed w e Hsearch) in Hcontext.
      destruct (error_part_data_error e) as (? & ? & ? & Hpart).
      rewrite Hpart in Hcontext. by apply elem_of_nil in Hcontext.
  - intros b e Hb Hthrow.
    destruct (performSourceSearch (searx w general)) as [webData|e0] eqn:Hsearch.
    + destruct (normalize url_hostname webData (bestEffort (searx w news))
                  (bestEffort (searx w images))) as [found|e0] eqn:Hfound.
      * destruct (observe_found w webData found Hsearch Hfound)
          as (Hbundles & _ & Hc & Hd & _).
        rewrite Hbundles in Hb. apply list_elem_of_singleton in Hb as ->.
        simpl in Hthrow.
        assert (Hreached : context_for selectRelevantContent w
                             (if bool_decide (0 < length (sources found))
                              then enrich Number w (sources found)
                              else sources found) = Throw e).
        { unfold context_for. by rewrite Hthrow. }
        rewrite Hc, Hd, Hreached. split; [done|]. split; [done|].
        rewrite (execute_found w webData found Hsearch Hfound).
        destruct (closing_ends_in_error w
                    (if bool_decide (0 < length (sources found))
                     then enrich Number w (sources found)
                     else sources found) e) as [before ->];
          [by rewrite Hreached|].
        by rewrite !app_assoc, last_snoc.
      * rewrite (execute_normalize_failed w webData e0 Hsearch Hfound) in Hb.
        destruct (error_part_data_error e0) as (? & ? & ? & Hpart).
        rewrite Hpart in Hb. by apply elem_of_nil in Hb.
    + rewrite (execute_search_failed w e0 Hsearch) in Hb.
      destruct (error_part_data_error e0) as (? & ? & ? & Hpart).
      rewrite Hpart in Hb. by apply elem_of_nil in Hb.
Qed.

End Stream.

(** ** The properties on the sample requests *)

Import Sample.

(** A 502 of SearxNG reaches the client as one error part with a
    text. *)
Lemma gateway_failure_reported :
  ∃ err, error_fields (run gateway_failure) = [ err ] ∧ err ≠ [].
Proof.
  destruct (required_search_failure hostname selector ticker to_number
              gateway_failure
              (new_Error (lit "SearxNG search error: Bad Gateway")))
    as (_ & _ & _ & _ & err & Herr & Hne).
  - intros r H. vm_compute in H. discriminate H.
  - intros response r H1 H2. vm_compute in H1. injection H1 as <-.
    vm_compute in H2. injection H2 as <-. intros _. discriminate.
  - reflexivity.
  - by exists err.
Defined.

(** The news search fails, the request ends without error part. *)
Lemma news_failure_tolerated :
  run news_failure = run (with_searx news_failure news no_results)
  ∧ error_fields (run news_failure) = [].
Proof.
  destruct (best_effort_failure hostname selector ticker to_number
              news_failure news results (new_Error (lit "news down")))
    as (_ & Hsame & Hquiet).
  - done.
  - reflexivity.
  - reflexivity.
  - split; [exact Hsame|].
    apply Hquiet. do 3 eexists.
    split; [vm_compute; reflexivity|].
    split; vm_compute; reflexivity.
Defined.

(** With a limit of one, only the first source is scraped and the
    second keeps its fields; with a limit of three, three of four
    sources are targets. *)
Lemma one_target_scraped :
  scrape_requests (run one_target) = [ VStr (lit "https://www.example.org/paris") ]
  ∧ enrich to_number one_target two_sources !! 1 = two_sources !! 1
  ∧ length (targets to_number three_targets (two_sources ++ two_sources)) = 3.
Proof.
  destruct (enrichment_limit hostname selector ticker to_number
              one_target two_sources)
    as (_ & _ & _ & _ & _ & _ & Hrest & Htrace).
  destruct (enrichment_limit hostname selector ticker to_number
              three_targets (two_sources ++ two_sources))
    as (_ & _ & Htext & _ & Htargets & _).
  split; [|split].
  - etrans; [apply (Htrace results); [reflexivity | vm_compute; reflexivity]|].
    vm_compute. reflexivity.
  - apply Hrest. vm_compute. lia.
  - rewrite Htargets.
    destruct (Htext (lit "3") (QArith_base.inject_Z 3)) as (HL & _);
      [reflexivity | vm_compute; reflexivity | reflexivity |].
    rewrite HL. vm_compute. reflexivity.
Defined.

(** The first source of [calm] after enrichment: same address, and a
    [markdown] that is its old one or a fetched one. *)
Lemma calm_enriched :
  ∃ s s', two_sources !! 0 = Some s
          ∧ enrich to_number calm two_sources !! 0 = Some s'
          ∧ augmented (allSettled calm (targets to_number calm two_sources)) 0 s s'.
Proof.
  destruct (enrich_only_augments to_number calm two_sources) as (_ & Hkeep & _).
  assert (Hlook : ∃ s', enrich to_number calm two_sources !! 0 = Some s').
  { eexists. vm_compute. reflexivity. }
  destruct Hlook as [s' Hs'].
  destruct (Hkeep 0 s' Hs') as (s & Hs & Haug).
  by exists s, s'.
Defined.

(** The bundle of [calm] is written once, after the scrapes. *)
Lemma calm_bundle_once : length (bundles (run calm)) = 1.
Proof.
  eapply (sources_written_once hostname selector ticker to_number calm results).
  - reflexivity.
  - vm_compute. reflexivity.
Defined.

(** C8, as the claim has it, fails: the search of [calm] gives two
    web sources and the stream carries one [data-sources] part, not
    two. *)
Lemma calm_bundle_not_twice :
  (∃ b, bundles (run calm) = [ b ] ∧ length (sources b) = 2)
  ∧ length (bundles (run calm)) ≠ 2.
Proof. split; [eexists; split; reflexivity | vm_compute; lia]. Qed.

(** The context of [calm]: two blocks, in the order of the two
    sources of the one bundle. *)
Lemma calm_context :
  ∃ b, bundles (run calm) = [ b ]
       ∧ prepare_context selector (query calm) (sources b)
         = Ok (lit "[1] Paris" ++ [JsString.LF]
               ++ lit "URL: https://www.example.org/paris" ++ [JsString.LF]
               ++ lit "# Paris" ++ separator
               ++ lit "[2] Lyon" ++ [JsString.LF]
               ++ lit "URL: http://example.com/lyon" ++ [JsString.LF]).
Proof.
  apply (proj1 (proj2 (proj2 (proj2 (proj2
           (context_follows_sources hostname selector ticker to_number
              calm [] [])))))).
  assert (H : contexts (run calm)
              = [ lit "[1] Paris" ++ [JsString.LF]
                  ++ lit "URL: https://www.example.org/paris" ++ [JsString.LF]
                  ++ lit "# Paris" ++ separator
                  ++ lit "[2] Lyon" ++ [JsString.LF]
                  ++ lit "URL: http://example.com/lyon" ++ [JsString.LF] ]).
  { vm_compute. reflexivity. }
  unfold run in *. rewrite H. apply list_elem_of_here.
Defined.

(** C1, as the claim has it, fails: the one web result of
    [opaque_title] has an object with a [toString] key for title; the
    bundle is written with that source, no context is built from it,
    the answer generation is not called and the stream ends with an
    error part. *)
Lemma opaque_title_no_context :
  (∃ b, bundles (run opaque_title) = [ b ]
        ∧ length (sources b) = 1
        ∧ prepare_context selector (query opaque_title) (sources b)
          = Throw TypeError_primitive)
  ∧ contexts (run opaque_title) = []
  ∧ error_fields (run opaque_title)
    = [ lit "Cannot convert object to primitive value" ].
Proof. split; [eexists; repeat split; reflexivity | split; reflexivity]. Qed.
(** ** The relevance selector *)

Section Selector.

Import JsString ContentSelection.

Lemma insert_by_perm {A} (before : A → A → bool) (x : A) (l : list A) :
  insert_by before x l ≡ₚ x :: l.
Proof.
  induction l as [|y rest IH]; simpl; [done|].
  destruct (before y x); [|done].
  rewrite IH. apply Permutation_swap.
Qed.

Lemma sort_by_perm {A} (before : A → A → bool) (l : list A) :
  sort_by before l ≡ₚ l.
Proof.
  unfold sort_by. rewrite <-(reverse_Permutation l) at 2.
  induction (reverse l) as [|x rest IH]; simpl; [done|].
  by rewrite insert_by_perm, IH.
Qed.

Lemma length_drop_token (l : jsstring) : length (drop_token l) ≤ length l.
Proof.
  induction l as [|c rest IH]; simpl; [done|].
  destruct (c =? SPACE)%N; simpl; lia.
Qed.

Lemma length_cut (s : jsstring) (n : nat) : length (cut s n) ≤ n.
Proof.
  unfold cut.
  assert (Hhead : length (take n s) ≤ n) by (rewrite length_take; lia).
  destruct (drop n s) as [|c rest]; [done|].
  destruct (c =? SPACE)%N; [done|].
  pose proof (length_drop_token (reverse (take n s))) as Hkept.
  rewrite length_reverse in Hkept.
  destruct (drop_token _) as [|k kept]; [done|].
  rewrite length_reverse. lia.
Qed.

Lemma sum_lengths (l : list (nat * jsstring)) :
  sum_list_with length (l.*2) = sum_list_with (λ c, length c.2) l.
Proof. induction l as [|c rest IH]; [done|]. rewrite fmap_cons. simpl. by rewrite IH. Qed.

(** What the greedy pass takes fits in the room it was given, the
    joining line feeds included. *)
Lemma greedy_fits (room : nat) (first : bool) (candidates : list (nat * jsstring)) :
  sum_list_with (λ c, length c.2) (greedy room first candidates)
  + length (greedy room first candidates)
  ≤ room + (if first then 1 else 0).
Proof.
  revert room first.
  induction candidates as [|[i segment] rest IH]; intros room first; simpl; [lia|].
  destruct (Nat.leb_spec ((if first then 0 else 1) + length segment) room)
    as [Hfits|Hover].
  - simpl. specialize (IH (room - ((if first then 0 else 1) + length segment)) false).
    destruct first; simpl in *; lia.
  - destruct (Nat.ltb_spec (if first then 0 else 1) room) as [Hroom|Hnone];
      simpl; [|lia].
    pose proof (length_cut segment (room - (if first then 0 else 1))).
    destruct first; simpl in *; lia.
Qed.

(** C2.  The selector is a function of its three arguments, and its
    result never has more units than the budget: a document within
    the budget is returned as it is, a longer one without any match is
    cut to its first [budget] units, and what is selected otherwise
    fits the budget with the line feeds that join it. *)
Theorem select_within_budget (document q : jsstring) (budget : nat) :
  length (select document q budget) ≤ budget
  ∧ (length document ≤ budget → select document q budget = document)
  ∧ (budget < length document →
     Forall (λ c, score (terms q) c.2 = 0) (segments document) →
     select document q budget = take budget document).
Proof.
  unfold select. split; [|split].
  - destruct (Nat.leb_spec (length document) budget) as [Hshort|Hlong]; [done|].
    destruct (forallb _ _).
    + rewrite length_take. lia.
    + rewrite length_join_le, length_fmap, sum_lengths. simpl.
      set (ranked := sort_by _ (segments document)).
      rewrite (sort_by_perm _ (greedy budget true ranked)).
      pose proof (greedy_fits budget true ranked) as Hfits.
      destruct (greedy budget true ranked); simpl in *; lia.
  - intros Hshort. by rewrite (proj2 (Nat.leb_le _ _) Hshort).
  - intros Hlong Hnone.
    rewrite (proj2 (Nat.leb_gt _ _) Hlong).
    assert (Hall : forallb (λ c, Nat.eqb (score (terms q) c.2) 0) (segments document)
                   = true).
    { induction Hnone as [|c rest Hc _ IH]; simpl; [done|]. by rewrite Hc, IH. }
    by rewrite Hall.
Qed.

(** A long document and a query that matches none of its lines. *)
Lemma select_unmatched_sample :
  select (lit "one two three four five six seven") (lit "zebra") 8
  = lit "one two ".
Proof.
  refine (proj2 (proj2 (select_within_budget _ _ _)) _ _).
  - vm_compute. lia.
  - vm_compute. repeat constructor.
Defined.

End Selector.

(** * Further properties of the code *)

(** ** The order of the stream *)

Section Order.

Variable url_hostname : value → option jsstring.
Variable selectRelevantContent : value → jsstring → nat → result jsstring.
Variable detectCompanyTicker : jsstring → value.
Variable Number : jsstring → number.

Local Notation "'run'" :=
  (execute url_hostname selectRelevantContent detectCompanyTicker Number).
Local Notation "'close'" :=
  (closing selectRelevantContent detectCompanyTicker).
Local Notation "'reach'" := (context_for selectRelevantContent).

Let found_trace := execute_found url_hostname selectRelevantContent detectCompanyTicker Number.
Let found_parts := observe_found url_hostname selectRelevantContent detectCompanyTicker Number.
Let found_rest := observe_rest url_hostname selectRelevantContent detectCompanyTicker Number.
Let search_failed := execute_search_failed url_hostname selectRelevantContent
                       detectCompanyTicker Number.
Let normalize_failed := execute_normalize_failed url_hostname selectRelevantContent
                          detectCompanyTicker Number.
Let stages := closing_trace selectRelevantContent detectCompanyTicker.
Let ends_in_error := closing_ends_in_error selectRelevantContent detectCompanyTicker.

(** X1.  On every trace the error parts are the last action, when it is
    an error part, and nothing else: an error part is written at most
    once and nothing is written or called after it. *)
Theorem error_part_is_last (w : World) :
  error_fields (run w)
  = match last (run w) with
    | Some (Write (data_error e _ _)) => [ e ]
    | _ => []
    end.
Proof.
  destruct (performSourceSearch (searx w general)) as [webData|e] eqn:Hsearch.
  - destruct (normalize url_hostname webData (bestEffort (searx w news))
                (bestEffort (searx w images))) as [found|e] eqn:Hfound.
    + destruct (found_parts w webData found Hsearch Hfound) as (_ & _ & _ & _ & ->).
      rewrite (found_trace w webData found Hsearch Hfound).
      cbv zeta.
      destruct (reach w _ ≫= answer_for w) as [full|e] eqn:Hend.
      * rewrite stages.
        destruct (reach w _) as [context|]; cbn [mbind result_bind] in Hend;
          [|done].
        rewrite Hend.
        destruct (followUp_text w full);
          repeat (rewrite last_app || rewrite last_cons); done.
      * destruct (ends_in_error w _ e Hend) as [before ->].
        rewrite !app_assoc, last_snoc.
        by destruct (error_part_data_error e) as (? & ? & ? & ->).
    + rewrite (normalize_failed w webData e Hsearch Hfound).
      by destruct (error_part_data_error e) as (? & ? & ? & ->).
  - rewrite (search_failed w e Hsearch).
    by destruct (error_part_data_error e) as (? & ? & ? & ->).
Qed.

(** X2.  The follow-up generation cannot fail the request: whatever it
    does, the error parts, the bundle, the chunks of the answer and the
    call itself are the same; and when it throws, no [data-followup]
    part is written. *)
Theorem followUp_failure_swallowed (w : World) (f : jsstring → result jsstring) :
  error_fields (run (with_followUp w f)) = error_fields (run w)
  ∧ bundles (run (with_followUp w f)) = bundles (run w)
  ∧ text_deltas (run (with_followUp w f)) = text_deltas (run w)
  ∧ followup_calls (run (with_followUp w f)) = followup_calls (run w)
  ∧ ((∀ full, ∃ e, f full = Throw e) → followups (run (with_followUp w f)) = []).
Proof.
  destruct (performSourceSearch (searx w general)) as [webData|e] eqn:Hsearch.
  - destruct (normalize url_hostname webData (bestEffort (searx w news))
                (bestEffort (searx w images))) as [found|e] eqn:Hfound.
    + destruct (found_parts w webData found Hsearch Hfound)
        as (-> & _ & _ & -> & ->).
      destruct (found_parts (with_followUp w f) webData found Hsearch Hfound)
        as (-> & _ & _ & -> & ->).
      destruct (found_rest w webData found Hsearch Hfound) as (-> & _).
      destruct (found_rest (with_followUp w f) webData found Hsearch Hfound)
        as (-> & -> & _).
      repeat split; try done.
      intros Hf.
      destruct (reach (with_followUp w f) _ ≫= answer_for (with_followUp w f))
        as [full|]; [|done].
      simpl. by destruct (Hf full) as [e ->].
    + rewrite (normalize_failed w webData e Hsearch Hfound).
      rewrite (normalize_failed (with_followUp w f) webData e Hsearch Hfound).
      repeat split; try done.
      by destruct (error_part_data_error e) as (? & ? & ? & ->).
  - rewrite (search_failed w e Hsearch).
    rewrite (search_failed (with_followUp w f) e Hsearch).
    repeat split; try done.
    by destruct (error_part_data_error e) as (? & ? & ? & ->).
Qed.

(** X3.  When the answer generation is reached after a successful
    search and throws, the bundle has been written and stays on the
    stream, the chunks already streamed stay too, the error part made
    from the thrown value is the last action, and the follow-up
    generation is not called. *)
Theorem answer_failure_keeps_sources (w : World) (webData : value)
    (found : SearchBundle) (context : jsstring) (e : thrown) :
  performSourceSearch (searx w general) = Ok webData →
  normalize url_hostname webData (bestEffort (searx w news))
    (bestEffort (searx w images)) = Ok found →
  let srcs := if bool_decide (0 < length (sources found))
              then enrich Number w (sources found) else sources found in
  reach w srcs = Ok context →
  answer_text w context = Throw e →
  bundles (run w) = [ bundle srcs found ]
  ∧ text_deltas (run w) = answer_deltas w context
  ∧ last (run w) = Some (Write (error_part e))
  ∧ followup_calls (run w) = []
  ∧ followups (run w) = [].
Proof.
  intros Hsearch Hfound srcs Hreached Hanswer.
  assert (Hend : reach w srcs ≫= answer_for w = Throw e).
  { rewrite Hreached. cbn [mbind result_bind]. unfold answer_for.
    by rewrite Hanswer. }
  destruct (found_parts w webData found Hsearch Hfound) as (-> & _ & _ & -> & _).
  destruct (found_rest w webData found Hsearch Hfound) as (-> & -> & _).
  fold srcs. rewrite Hend, Hreached.
  repeat split; try done.
  rewrite (found_trace w webData found Hsearch Hfound).
  fold srcs. destruct (ends_in_error w srcs e Hend) as [before ->].
  by rewrite !app_assoc, last_snoc.
Qed.

(** X4.  When the answer generation is reached after a successful
    search, everything else has happened by then: before the call come
    the status parts, the scrape requests, the bundle and the ticker
    part, and no chunk of an answer; after it come no status part, no
    scrape request, no bundle and no ticker part. *)
Theorem answer_comes_last (w : World) (webData : value) (found : SearchBundle)
    (context : jsstring) :
  performSourceSearch (searx w general) = Ok webData →
  normalize url_hostname webData (bestEffort (searx w news))
    (bestEffort (searx w images)) = Ok found →
  let srcs := if bool_decide (0 < length (sources found))
              then enrich Number w (sources found) else sources found in
  reach w srcs = Ok context →
  ∃ before after,
    run w = before ++ StreamText context :: after
    ∧ bundles before = [ bundle srcs found ]
    ∧ tickers before = tickers (run w)
    ∧ statuses before = statuses (run w)
    ∧ scrape_requests before = scrape_requests (run w)
    ∧ text_deltas before = [] ∧ contexts before = []
    ∧ bundles after = [] ∧ contexts after = [].
Proof.
  intros Hsearch Hfound srcs Hreached.
  destruct (found_parts w webData found Hsearch Hfound) as (_ & -> & _).
  destruct (found_rest w webData found Hsearch Hfound) as (_ & _ & -> & ->).
  rewrite (found_trace w webData found Hsearch Hfound).
  fold srcs. rewrite stages, Hreached.
  assert (Hlen : bool_decide (0 < length srcs)
                 = bool_decide (0 < length (sources found))).
  { unfold srcs. destruct (bool_decide (0 < length (sources found))) eqn:Hsome;
      [by rewrite length_enrich | done]. }
  rewrite Hlen.
  exists
    ([ Write (data_status "status-1" "Starting search...");
       Write (data_status "status-2" "Searching for relevant sources...");
       FetchSearch general; FetchSearch news; FetchSearch images ]
     ++ (if bool_decide (0 < length (sources found))
         then Write (data_status "status-3a" "Fetching full article content...")
              :: ((λ source, FetchScrape (s_url source))
                    <$> targets Number w (sources found))
              ++ [ Write (data_sources (bundle srcs found));
                   Write (data_status "status-2b" "Analyzing detailed content...") ]
         else [ Write (data_sources (bundle srcs found)) ])
     ++ Write (data_status "status-3" "Analyzing sources and generating answer...")
     :: (if truthy (detectCompanyTicker (query w))
         then [ Write (data_ticker (detectCompanyTicker (query w))) ] else [])).
  eexists. split.
  { destruct (bool_decide (0 < length (sources found)));
      rewrite <-?app_assoc; cbn [app]; rewrite <-?app_assoc; reflexivity. }
  unfold bundles, tickers, statuses, scrape_requests, text_deltas, contexts.
  repeat split;
    try destruct (bool_decide _); try destruct (truthy _);
    try destruct (answer_for w context) as [a|e];
    try destruct (followUp_text w a);
    try destruct (error_part_data_error e) as (? & ? & ? & ->);
    read_trace; done.
Qed.

End Order.
(** ** Normalisation, further *)

Section Payloads.

Variable url_hostname : value → option jsstring.
Variable selectRelevantContent : value → jsstring → nat → result jsstring.
Variable detectCompanyTicker : jsstring → value.
Variable Number : jsstring → number.

Local Notation "'run'" :=
  (execute url_hostname selectRelevantContent detectCompanyTicker Number).

Ltac read_fields Hitem :=
  rewrite ?(get_present _ _ Hitem);
  repeat (rewrite ?orM_Ok; cbn [mbind result_bind fmap result_fmap]).

Lemma get_Ok_present (item : value) (k : string) (v : value) :
  get item k = Ok v → nullish item = false.
Proof. by destruct item. Qed.

Lemma length_omap_id {A} (l : list (option A)) : length (omap id l) ≤ length l.
Proof. induction l as [|[x|] rest IH]; csimpl; lia. Qed.

Lemma web_source_Some (item : value) (s : Source) :
  web_source url_hostname item = Ok (Some s) →
  truthy (s_title s) = true ∧ s_markdown s = VUndefined
  ∧ s_content s = get_opt item "content".
Proof.
  intros Hs.
  assert (Hitem : nullish item = false).
  { unfold web_source, orM in Hs. by destruct item. }
  revert Hs. unfold web_source. read_fields Hitem.
  destruct (truthy (or (or _ _) _)) eqn:Hurl; simpl; [|done].
  destruct (buildHostInfo _ _) as [host siteName].
  read_fields Hitem. intros [= <-]. simpl. split; [|done].
  unfold or at 1. by destruct (truthy (get_opt item "title")) eqn:Htitle.
Qed.

Lemma image_item_Some (item : value) (i : ImageItem) :
  image_item url_hostname item = Ok (Some i) → truthy (i_title i) = true.
Proof.
  intros Hi.
  assert (Hitem : nullish item = false).
  { unfold image_item, orM in Hi. by destruct item. }
  revert Hi. unfold image_item. read_fields Hitem.
  destruct (truthy (or (or (or (or _ _) _) _) _)); simpl; [|done].
  read_fields Hitem. intros [= <-]. simpl.
  unfold or. by destruct (truthy (get_opt item "title")) eqn:Htitle.
Qed.

(** X5.  Whatever normalisation returns, every web source has a truthy
    title and no [markdown] yet, every image has a truthy title, and no
    collection has more elements than its payload has items. *)
Theorem normalize_fills_titles (webData newsData imagesData : value)
    (found : SearchBundle) :
  normalize url_hostname webData newsData imagesData = Ok found →
  Forall (λ s, truthy (s_title s) = true ∧ s_markdown s = VUndefined) (sources found)
  ∧ Forall (λ i, truthy (i_title i) = true) (imageResults found)
  ∧ length (sources found) ≤ length (recover (webResults_of webData) [])
  ∧ length (newsResults found) ≤ length (bestEffort_results "news" newsData)
  ∧ length (imageResults found) ≤ length (bestEffort_results "images" imagesData).
Proof.
  unfold normalize.
  destruct (webResults_of webData) as [webResults|]; [simpl|done].
  unfold transform_sources, transform_news, transform_images.
  destruct (mapM (web_source url_hostname) webResults) as [ms|] eqn:Hms; [simpl|done].
  destruct (mapM (news_item url_hostname) _) as [mn|] eqn:Hmn; [simpl|done].
  destruct (mapM (image_item url_hostname) _) as [mi|] eqn:Hmi; [simpl|done].
  intros [= <-]. simpl.
  apply mapM_Ok_Forall2 in Hms, Hmn, Hmi.
  split; [|split; [|split; [|split]]].
  - apply Forall_forall. intros s Hs.
    apply list_elem_of_omap in Hs as ([s'|] & Hin & [= ->]).
    apply list_elem_of_lookup in Hin as [k Hk].
    destruct (Forall2_lookup_r _ _ _ _ _ Hms Hk) as (item & _ & Hitem).
    destruct (web_source_Some item s Hitem) as (? & ? & _). done.
  - apply Forall_forall. intros i Hi.
    apply list_elem_of_omap in Hi as ([i'|] & Hin & [= ->]).
    apply list_elem_of_lookup in Hin as [k Hk].
    destruct (Forall2_lookup_r _ _ _ _ _ Hmi Hk) as (item & _ & Hitem).
    by apply (image_item_Some item).
  - rewrite (Forall2_length _ _ _ Hms). apply length_omap_id.
  - rewrite (Forall2_length _ _ _ Hmn). apply length_filter.
  - rewrite (Forall2_length _ _ _ Hmi). apply length_omap_id.
Qed.

(** X6.  An item whose address does not parse as a URL is kept: its
    source has the address as [url], and neither favicon nor site
    name. *)
Theorem web_source_unparsed_url (item u : value) :
  nullish item = false →
  Fallback.first_present Fallback.source_url item = Some u →
  url_hostname u = None →
  ∃ s, web_source url_hostname item = Ok (Some s)
       ∧ s_url s = u ∧ s_favicon s = VUndefined ∧ s_siteName s = VUndefined.
Proof.
  intros Hitem Hu Hparse. revert Hu.
  unfold Fallback.first_present, Fallback.source_url.
  rewrite fmap_cons, or_chain_first. cbn [fmap list_fmap foldl].
  unfold web_source. read_fields Hitem.
  destruct (truthy (or (or _ _) _)) eqn:Hurl; [|done].
  intros [= Hu]. rewrite Hu in *. cbn [negb]. unfold buildHostInfo.
  rewrite Hurl, Hparse.
  cbn [negb]. read_fields Hitem. by eexists.
Qed.




(** X8.  When the payload of the general search has no array under
    [results] and normalisation succeeds, there is no web source: the
    collected bundle is written as it is, nothing is scraped, the
    statuses are the three of a request without sources, and the
    answer generation is called with the empty context, unless the
    conversion of the earlier messages throws, in which case it is not
    called. *)
Theorem no_results_empty_context (w : World) (webData : value)
    (found : SearchBundle) :
  performSourceSearch (searx w general) = Ok webData →
  isArray (get_opt webData "results") = false →
  normalize url_hostname webData (bestEffort (searx w news))
    (bestEffort (searx w images)) = Ok found →
  sources found = []
  ∧ bundles (run w) = [ found ]
  ∧ scrape_requests (run w) = []
  ∧ contexts (run w)
    = match aiMessages w with Ok _ => [ [] ] | Throw _ => [] end
  ∧ statuses (run w) = [ "status-1"; "status-2"; "status-3" ].
Proof.
  intros Hsearch Harray Hfound.
  assert (Hnone : sources found = []).
  { revert Hfound. unfold normalize, webResults_of.
    rewrite (get_present _ _ (performSourceSearch_present _ _ Hsearch)).
    cbn [mbind result_bind]. rewrite Harray.
    cbn [mbind result_bind transform_sources mapM mret result_ret omap].
    destruct (transform_news _ _); [simpl|done].
    destruct (transform_images _ _); [simpl|done].
    by intros [= <-]. }
  destruct (observe_found _ selectRelevantContent detectCompanyTicker Number
              w webData found Hsearch Hfound) as (-> & -> & -> & _).
  destruct (observe_rest _ selectRelevantContent detectCompanyTicker Number
              w webData found Hsearch Hfound) as (_ & _ & _ & ->).
  rewrite Hnone. simpl. split; [done|]. split; [by rewrite <-Hnone, bundle_same|].
  split; [done|]. split; [|done].
  unfold context_for, prepare_context. cbn [imap mapM mbind result_bind mret result_ret].
  by destruct (aiMessages w).
Qed.

End Payloads.

(** ** Enrichment, further *)

Section Merging.

Variable Number : jsstring → number.

Lemma strict_equals_eq (a b : value) : strict_equals a b = true → a = b.
Proof.
  destruct a, b; simpl; try done.
  - intros H. by apply bool_decide_eq_true in H as ->.
  - unfold JsString.eqb. intros H. by apply bool_decide_eq_true in H as ->.
  - unfold JsString.eqb. intros H. by apply bool_decide_eq_true in H as ->.
  - intros H. by apply bool_decide_eq_true in H as ->.
Qed.

Lemma find_index_least {A} (p : nat → A → bool) (k : nat) (l : list A) (m : nat) :
  find_index p k l = Some m →
  ∀ k' y, k ≤ k' < m → l !! (k' - k) = Some y → p k' y = false.
Proof.
  revert k. induction l as [|x rest IH]; intros k Hfind k' y Hk' Hy; [done|].
  simpl in Hfind. destruct (p k x) eqn:Hp.
  - simplify_eq. lia.
  - destruct (decide (k' = k)) as [->|Hne].
    + rewrite Nat.sub_diag in Hy. by simplify_eq/=.
    + apply (IH (S k) Hfind); [lia|].
      by replace (k' - k) with (S (k' - S k)) in Hy by lia.
Qed.

Lemma find_index_exact {A} (p : nat → A → bool) (k : nat) (l : list A)
    (i : nat) (x : A) :
  (∀ k' y, k ≤ k' < i → l !! (k' - k) = Some y → p k' y = false) →
  k ≤ i → l !! (i - k) = Some x → p i x = true →
  find_index p k l = Some i.
Proof.
  intros Hbefore Hle Hx Hp.
  destruct (find_index_first p k l i x Hle Hx Hp) as (j & Hj & Hji).
  rewrite Hj. f_equal.
  destruct (decide (j = i)) as [|Hne]; [done|].
  destruct (find_index_Some p k l j Hj) as (y & Hkj & Hy & Hpy).
  rewrite (Hbefore j y) in Hpy; [done | lia | done].
Qed.

Lemma urls_alter (v : Scraped) (j : nat) (cur : list Source) :
  s_url <$> alter (merge_into v) j cur = s_url <$> cur.
Proof.
  revert j. induction cur as [|c rest IH]; intros [|j]; csimpl; try done.
  by rewrite IH.
Qed.

Lemma urls_merge_one (i : nat) (r : result Scraped) (cur : list Source) :
  s_url <$> merge_one i r cur = s_url <$> cur.
Proof.
  unfold merge_one. destruct r as [v|]; [|done].
  destruct (find_index _ _ _); [apply urls_alter | done].
Qed.

Lemma urls_lookup (cur srcs : list Source) (k : nat) (c : Source) :
  s_url <$> cur = s_url <$> srcs → cur !! k = Some c →
  ∃ s, srcs !! k = Some s ∧ s_url c = s_url s.
Proof.
  intros Hurls Hc.
  assert (H : (s_url <$> srcs) !! k = Some (s_url c)).
  { by rewrite <-Hurls, list_lookup_fmap, Hc. }
  rewrite list_lookup_fmap in H.
  destruct (srcs !! k) as [s|]; [|done]. exists s. by simplify_eq/=.
Qed.

Lemma merge_into_nothing (v : Scraped) (s : Source) :
  truthy (sc_markdown v) = false → truthy (sc_content v) = false →
  merge_into v s = s.
Proof. intros Hm Hc. destruct s. unfold merge_into, or. simpl. by rewrite Hm, Hc. Qed.

Lemma merge_from_nothing (i : nat) (scraped : list (result Scraped)) (srcs : list Source) :
  Forall (λ r, ∀ v, r = Ok v →
            truthy (sc_markdown v) = false ∧ truthy (sc_content v) = false) scraped →
  merge_from i scraped srcs = srcs.
Proof.
  intros Hall. revert i. induction Hall as [|r rest Hr _ IH]; intros i; [done|].
  simpl. rewrite <-(IH (S i)) at 2. f_equal.
  unfold merge_one. destruct r as [v|]; [|done].
  destruct (find_index _ _ _) as [j|]; [|done].
  destruct (Hr v eq_refl) as [Hm Hc].
  apply list_alter_id. intros s. by apply merge_into_nothing.
Qed.

(** X9.  When no scrape brings anything (each one fails, or is
    fulfilled without [markdown] and without [content]), enrichment
    returns the sources as they were; so it does when Firecrawl fails
    or answers with a status that is not OK every time. *)
Theorem enrich_nothing_fetched (w : World) (srcs : list Source) :
  (Forall (λ r, ∀ v, r = Ok v →
             truthy (sc_markdown v) = false ∧ truthy (sc_content v) = false)
     (allSettled w (targets Number w srcs)) →
   enrich Number w srcs = srcs)
  ∧ ((∀ i response, firecrawl w i = Ok response → ok response = false) →
     enrich Number w srcs = srcs).
Proof.
  split; [apply merge_from_nothing|].
  intros Hdown. apply merge_from_nothing, Forall_forall. intros r Hr v ->.
  apply list_elem_of_lookup in Hr as [i Hi].
  unfold allSettled in Hi. rewrite list_lookup_imap in Hi.
  destruct (targets Number w srcs !! i) as [target|]; [|done].
  simpl in Hi. injection Hi as Hi. unfold scrape_one in Hi.
  destruct (firecrawl w i) as [response|] eqn:Hreply; [simpl in Hi|done].
  rewrite (Hdown i response Hreply) in Hi. simpl in Hi.
  destruct (_ ||| _); simpl in Hi; [|done]. by destruct (to_string _).
Qed.

(** The scraped outcomes carry the addresses of the sources at their
    positions. *)
Lemma allSettled_url (w : World) (srcs : list Source) (i : nat) (v : Scraped) :
  allSettled w (targets Number w srcs) !! i = Some (Ok v) →
  ∃ t, srcs !! i = Some t ∧ sc_url v = s_url t.
Proof.
  intros Hi. unfold allSettled in Hi. rewrite list_lookup_imap in Hi.
  destruct (targets Number w srcs !! i) as [target|] eqn:Htarget; [|done].
  exists target. split.
  - unfold targets in Htarget. by apply lookup_take_Some in Htarget as [? _].
  - simpl in Hi. injection Hi as Hi. unfold scrape_one in Hi.
    destruct (firecrawl w i) as [response|]; [simpl in Hi|done].
    destruct (ok response); simpl in Hi.
    + destruct (json response) as [scrapeJson|]; [simpl in Hi|done].
      destruct (get scrapeJson "data"); [simpl in Hi|done].
      by injection Hi as <-.
    + destruct (_ ||| _); simpl in Hi; [|done]. by destruct (to_string _).
Qed.

Lemma merge_from_distinct (srcs : list Source) (i : nat)
    (scraped : list (result Scraped)) (cur : list Source) :
  (∀ j k sj sk, j < k → srcs !! j = Some sj → srcs !! k = Some sk →
                strict_equals (s_url sj) (s_url sk) = false) →
  s_url <$> cur = s_url <$> srcs →
  (∀ j v, scraped !! j = Some (Ok v) →
          ∃ t, srcs !! (i + j) = Some t ∧ sc_url v = s_url t) →
  ∀ k c, cur !! k = Some c →
    merge_from i scraped cur !! k
    = Some (if decide (i ≤ k)
            then match scraped !! (k - i) with
                 | Some (Ok v) => merge_into v c
                 | _ => c
                 end
            else c).
Proof.
  intros Hdistinct. revert i cur.
  induction scraped as [|r rest IH]; intros i cur Hurls Hsc k c Hc.
  { simpl. rewrite Hc. by destruct (decide _), (k - i). }
  simpl.
  assert (Hstep : merge_one i r cur
                  = match r with Ok v => alter (merge_into v) i cur | Throw _ => cur end).
  { unfold merge_one. destruct r as [v|]; [|done].
    destruct (Hsc 0 v eq_refl) as (t & Ht & Hv). rewrite Nat.add_0_r in Ht.
    assert (Hi : ∃ x, cur !! i = Some x ∧ s_url x = s_url t).
    { assert (H : (s_url <$> cur) !! i = Some (s_url t))
        by by rewrite Hurls, list_lookup_fmap, Ht.
      rewrite list_lookup_fmap in H.
      destruct (cur !! i) as [x|]; [|done]. exists x. by simplify_eq/=. }
    destruct Hi as (x & Hx & Hxt).
    rewrite (find_index_exact (same_url i (sc_url v)) 0 cur i x); [done| |lia| |].
    - intros k' y [_ Hk'] Hy. rewrite Nat.sub_0_r in Hy.
      destruct (urls_lookup cur srcs k' y Hurls Hy) as (s & Hs & Hys).
      unfold same_url. rewrite Hys, Hv, (Hdistinct k' i s t Hk' Hs Ht).
      simpl. apply Nat.eqb_neq. lia.
    - by rewrite Nat.sub_0_r.
    - unfold same_url. rewrite Nat.eqb_refl. by destruct (strict_equals _ _). }
  assert (Hurls' : s_url <$> merge_one i r cur = s_url <$> srcs)
    by by rewrite urls_merge_one.
  assert (Hsc' : ∀ j v, rest !! j = Some (Ok v) →
                        ∃ t, srcs !! (S i + j) = Some t ∧ sc_url v = s_url t).
  { intros j v Hj. replace (S i + j) with (i + S j) by lia. by apply Hsc. }
  destruct (decide (k = i)) as [->|Hne].
  - assert (Hc' : merge_one i r cur !! i
                  = Some (match r with Ok v => merge_into v c | Throw _ => c end)).
    { rewrite Hstep. destruct r as [v|]; [|done].
      by rewrite list_lookup_alter_eq, Hc. }
    rewrite (IH (S i) _ Hurls' Hsc' i _ Hc').
    rewrite decide_False by lia. rewrite decide_True by lia.
    rewrite Nat.sub_diag. simpl. by destruct r.
  - assert (Hc' : merge_one i r cur !! k = Some c).
    { rewrite Hstep. destruct r as [v|]; [|done].
      by rewrite list_lookup_alter_ne. }
    rewrite (IH (S i) _ Hurls' Hsc' k _ Hc').
    destruct (decide (S i ≤ k)) as [Hk|Hk].
    + rewrite decide_True by lia.
      by replace (k - i) with (S (k - S i)) by lia.
    + by rewrite decide_False by lia.
Qed.

(** X10.  When no two sources have the same address, each scraped page
    lands in its own source: after enrichment the source at a position
    is the old one merged with the outcome of its own scrape, when that
    one is fulfilled, and the old one otherwise. *)
Theorem enrich_distinct_urls (w : World) (srcs : list Source) :
  (∀ j k sj sk, j < k → srcs !! j = Some sj → srcs !! k = Some sk →
                strict_equals (s_url sj) (s_url sk) = false) →
  ∀ k s, srcs !! k = Some s →
    enrich Number w srcs !! k
    = Some match allSettled w (targets Number w srcs) !! k with
           | Some (Ok v) => merge_into v s
           | _ => s
           end.
Proof.
  intros Hdistinct k s Hs. unfold enrich.
  rewrite (merge_from_distinct srcs 0 _ srcs Hdistinct eq_refl) with (c := s);
    [|intros j v Hj; by apply (allSettled_url w srcs)|done].
  rewrite decide_True by lia. by rewrite Nat.sub_0_r.
Qed.

Lemma merge_from_duplicate (srcs : list Source) (j i : nat) (sj si : Source)
    (t0 : nat) (scraped : list (result Scraped)) (cur : list Source) :
  j < i → srcs !! j = Some sj → srcs !! i = Some si →
  strict_equals (s_url sj) (s_url si) = true →
  s_url <$> cur = s_url <$> srcs →
  (∀ n v, scraped !! n = Some (Ok v) →
          ∃ t, srcs !! (t0 + n) = Some t ∧ sc_url v = s_url t) →
  merge_from t0 scraped cur !! i = cur !! i.
Proof.
  intros Hji Hj Hi Hdup. revert t0 cur.
  induction scraped as [|r rest IH]; intros t0 cur Hurls Hsc; [done|].
  simpl. rewrite IH.
  - unfold merge_one. destruct r as [v|]; [|done].
    destruct (find_index _ _ _) as [m|] eqn:Hfind; [|done].
    destruct (decide (m = i)) as [->|Hne]; [|by apply list_lookup_alter_ne].
    exfalso.
    destruct (find_index_Some _ _ _ _ Hfind) as (x & _ & Hx & Hp).
    rewrite Nat.sub_0_r in Hx.
    destruct (urls_lookup cur srcs i x Hurls Hx) as (s & Hs & Hxs).
    assert (s = si) as -> by congruence.
    assert (Hcj : ∃ y, cur !! j = Some y ∧ s_url y = s_url sj).
    { assert (H : (s_url <$> cur) !! j = Some (s_url sj))
        by by rewrite Hurls, list_lookup_fmap, Hj.
      rewrite list_lookup_fmap in H.
      destruct (cur !! j) as [y|]; [|done]. exists y. by simplify_eq/=. }
    destruct Hcj as (y & Hy & Hyj).
    assert (Hfalse : same_url t0 (sc_url v) j y = false).
    { apply (find_index_least _ _ _ _ Hfind j y); [lia|].
      by rewrite Nat.sub_0_r. }
    assert (Hsame : s_url sj = sc_url v).
    { pose proof (strict_equals_eq _ _ Hdup) as Heq.
      unfold same_url in Hp. apply orb_true_iff in Hp as [Hp|Hp].
      - apply strict_equals_eq in Hp. congruence.
      - apply Nat.eqb_eq in Hp as <-.
        destruct (Hsc 0 v eq_refl) as (t & Ht & Hv).
        rewrite Nat.add_0_r in Ht. congruence. }
    pose proof (strict_equals_eq _ _ Hdup) as Heq.
    rewrite <-Heq in Hdup.
    unfold same_url in Hfalse. rewrite Hyj, <-Hsame, Hdup in Hfalse. done.
  - by rewrite urls_merge_one.
  - intros n v Hn. replace (S t0 + n) with (t0 + S n) by lia. by apply Hsc.
Qed.

(** X11.  A source whose address already occurs earlier in the list is
    never enriched: what is scraped for that address goes to the first
    source that has it. *)
Theorem enrich_duplicate_untouched (w : World) (srcs : list Source)
    (j i : nat) (sj si : Source) :
  j < i → srcs !! j = Some sj → srcs !! i = Some si →
  strict_equals (s_url sj) (s_url si) = true →
  enrich Number w srcs !! i = Some si.
Proof.
  intros Hji Hj Hi Hdup. unfold enrich.
  rewrite (merge_from_duplicate srcs j i sj si 0 _ srcs Hji Hj Hi Hdup eq_refl);
    [done|].
  intros n v Hn. by apply (allSettled_url w srcs).
Qed.

End Merging.

(** ** The error part, further *)

(** X12.  For the status codes 401, 402, 429 and 504 the error part
    depends on the code alone: it has the text and the suggestion of the
    table and the code, and nothing of the message of the thrown value;
    [statusCode] is read before [status]. *)
Theorem error_part_known_code (e1 e2 : thrown) (c : Z) :
  c ∈ [401; 402; 429; 504]%Z →
  statusCode e1 = Some c →
  statusCode e2 = Some c ∨ (statusCode e2 = None ∧ status e2 = Some c) →
  error_part e1 = error_part e2
  ∧ ∃ text suggestion,
      errorResponses c = Some (text, suggestion)
      ∧ error_part e1 = data_error text (Some suggestion) (Some c).
Proof.
  intros Hc H1 H2.
  assert (Hpart : ∀ e, (statusCode e = Some c
                        ∨ (statusCode e = None ∧ status e = Some c)) →
                  ∃ text suggestion,
                    errorResponses c = Some (text, suggestion)
                    ∧ error_part e = data_error text (Some suggestion) (Some c)).
  { intros e He. unfold error_part.
    assert (Hcode : match statusCode e with Some c' => Some c' | None => status e end
                    = Some c) by (destruct He as [->|[-> ->]]; done).
    rewrite Hcode.
    repeat (apply elem_of_cons in Hc as [->|Hc]; [by eexists _, _|]).
    by apply elem_of_nil in Hc. }
  destruct (Hpart e1 (or_introl H1)) as (text & suggestion & Htable & Hp1).
  destruct (Hpart e2 H2) as (text' & suggestion' & Htable' & Hp2).
  split; [|by eauto]. congruence.
Qed.

Lemma error_part_401_sample :
  error_part (Thrown true (lit "Incorrect API key provided: sk-secret") (Some 401%Z) None)
  = error_part (Thrown false [] None (Some 401%Z)).
Proof.
  refine (proj1 (error_part_known_code _ _ 401 _ _ _)); [|done|by right].
  set_solver.
Defined.

Section Failures.

Variable url_hostname : value → option jsstring.
Variable selectRelevantContent : value → jsstring → nat → result jsstring.
Variable detectCompanyTicker : jsstring → value.
Variable Number : jsstring → number.

Local Notation "'run'" :=
  (execute url_hostname selectRelevantContent detectCompanyTicker Number).

(** What the search helper throws on an answer that is not OK. *)
Lemma performSourceSearch_not_ok (response : Response) :
  ok response = false →
  let errorData := recover (json response) (VObj []) in
  let detail := or (get_opt errorData "error") (VStr (statusText response)) in
  ∃ e, performSourceSearch (Ok response) = Throw e
       ∧ error_part e = data_error (message e) None None
       ∧ message e ≠ []
       ∧ (nullish errorData = true →
          message e = message (TypeError_read "null" "error")
          ∨ message e = message (TypeError_read "undefined" "error"))
       ∧ (nullish errorData = false →
          match to_string detail with
          | Ok shown => message e = lit "SearxNG search error: " ++ shown
          | Throw _ => message e = lit "Cannot convert object to primitive value"
          end).
Proof.
  intros Hok errorData detail. unfold performSourceSearch.
  cbn [mbind result_bind]. rewrite Hok. cbn [negb]. fold errorData.
  destruct (nullish errorData) eqn:Hdata.
  - destruct errorData; try done; eexists;
      (split; [reflexivity|]); (split; [reflexivity|]);
      (split; [discriminate|]); (split; [|done]); intros _; auto.
  - rewrite (get_present _ _ Hdata), orM_Ok. cbn [mbind result_bind]. fold detail.
    destruct (to_string detail) as [shown|e'] eqn:Hshown; cbn [mbind result_bind].
    + eexists. split; [reflexivity|]. split; [reflexivity|].
      split; [|split; [done|]].
      * simpl. discriminate.
      * done.
    + apply to_string_Throw in Hshown as Heq. subst e'.
      eexists. split; [reflexivity|]. split; [reflexivity|].
      split; [discriminate|]. split; [done|]. done.
Qed.

(** X13.  When SearxNG answers the required search with a status that
    is not OK, the request ends with one error part that carries
    neither suggestion nor status code, whatever the HTTP status was,
    and whose text is not empty.  The text is the prefix ["SearxNG
    search error: "] followed by the [error] field of the body when
    that is truthy, and by the status text otherwise (also when the
    body is not JSON), when that value can be rendered as text; it is
    the text of the [TypeError] when the body is [null] or when the
    value cannot be rendered. *)
Theorem search_status_not_mapped (w : World) (response : Response) :
  searx w general = Ok response →
  ok response = false →
  let errorData := recover (json response) (VObj []) in
  let detail := or (get_opt errorData "error") (VStr (statusText response)) in
  ∃ text,
    run w =
      [ Write (data_status "status-1" "Starting search...");
        Write (data_status "status-2" "Searching for relevant sources...");
        FetchSearch general; FetchSearch news; FetchSearch images;
        Write (data_error text None None) ]
    ∧ text ≠ []
    ∧ (nullish errorData = true →
       text = message (TypeError_read "null" "error")
       ∨ text = message (TypeError_read "undefined" "error"))
    ∧ (nullish errorData = false →
       match to_string detail with
       | Ok shown => text = lit "SearxNG search error: " ++ shown
       | Throw _ => text = lit "Cannot convert object to primitive value"
       end).
Proof.
  intros Hreply Hok errorData detail.
  destruct (performSourceSearch_not_ok response Hok)
    as (e & Hthrow & Hpart & Htext & Hnull & Hshown).
  exists (message e). split; [|done].
  rewrite <-Hpart.
  apply (execute_search_failed _ _ _ _ w e). by rewrite Hreply.
Qed.

End Failures.

(** ** Citation markers and follow-up questions, further *)

Section Markers.

Import JsString.

Lemma uint_units_digits (d : Decimal.uint) : Forall is_digit (uint_units d).
Proof.
  induction d; simpl; constructor; try done; unfold is_digit; lia.
Qed.

Lemma uint_units_inj (d d' : Decimal.uint) :
  uint_units d = uint_units d' → d = d'.
Proof.
  revert d'. induction d as [|r IH|r IH|r IH|r IH|r IH|r IH|r IH|r IH|r IH|r IH];
    intros [|r'|r'|r'|r'|r'|r'|r'|r'|r'|r']; simpl; try done;
    intros [= H]; f_equal; by apply IH.
Qed.

Lemma of_nat_inj (n m : nat) : of_nat n = of_nat m → n = m.
Proof.
  unfold of_nat. intros H%uint_units_inj.
  apply (f_equal Nat.of_uint) in H.
  by rewrite !DecimalNat.Unsigned.of_to in H.
Qed.

(** A run of digits closed by a bracket is read back in one way only. *)
Lemma digits_closed (a b r r' : jsstring) :
  Forall is_digit a → Forall is_digit b →
  a ++ 93%N :: r = b ++ 93%N :: r' → a = b.
Proof.
  intros Ha. revert b. induction Ha as [|x a Hx _ IH]; intros b Hb Heq.
  - destruct Hb as [|y b Hy _]; [done|].
    simpl in Heq. injection Heq as <- _. unfold is_digit in Hy. lia.
  - destruct Hb as [|y b Hy Hb].
    + simpl in Heq. injection Heq as -> _. unfold is_digit in Hx. lia.
    + simpl in Heq. injection Heq as -> Heq. f_equal. by apply IH.
Qed.

Variable selectRelevantContent : value → jsstring → nat → result jsstring.

(** X14.  A block of the context determines the position of its source:
    two blocks that are equal, whatever the queries, titles, addresses
    and contents they were built from, have the same index, so no two
    sources of one context share a citation marker; and the context of a
    list of sources that is not empty is not empty. *)
Theorem context_markers_distinct (q q' : jsstring) (srcs : list Source) :
  (∀ i j s s' block,
     context_block selectRelevantContent q i s = Ok block →
     context_block selectRelevantContent q' j s' = Ok block → i = j)
  ∧ (prepare_context selectRelevantContent q srcs = Ok [] ↔ srcs = []).
Proof.
  split.
  - intros i j s s' block
      (t & u & c & _ & _ & _ & ->)%context_block_Ok
      (t' & u' & c' & _ & _ & _ & Heq)%context_block_Ok.
    change (lit "[") with [91%N] in Heq.
    change (lit "] ") with [93%N; 32%N] in Heq.
    cbn [app] in Heq. injection Heq as Heq.
    apply digits_closed in Heq; [|apply uint_units_digits..].
    apply of_nat_inj in Heq. lia.
  - split; [|by intros ->].
    intros (blocks & Hjoin & Hblocks)%prepare_context_Ok.
    destruct srcs as [|s rest]; [done|]. exfalso.
    rewrite imap_cons in Hblocks.
    inversion Hblocks as [|? block ? bs Hblock _]; subst.
    apply context_block_Ok in Hblock as (t & u & c & _ & _ & _ & ->).
    change (lit "[") with [91%N] in Hjoin.
    destruct bs; discriminate Hjoin.
Qed.

Lemma split_pieces (sep : code_unit) (s : jsstring) :
  Forall (λ p, sep ∉ p) (split sep s).
Proof.
  induction s as [|c rest IH]; simpl.
  - constructor; [apply not_elem_of_nil | done].
  - destruct (N.eqb_spec c sep) as [->|Hc].
    + constructor; [apply not_elem_of_nil | done].
    + destruct (split sep rest) as [|p ps].
      * constructor; [|done].
        apply not_elem_of_cons. split; [done | apply not_elem_of_nil].
      * inversion IH as [|? ? Hp Hps]; subst. constructor; [|done].
        apply not_elem_of_cons. by split.
Qed.

Lemma split_whole (sep : code_unit) (p : jsstring) :
  sep ∉ p → split sep p = [p].
Proof.
  induction p as [|c rest IH]; [done|]. intros Hp. simpl.
  destruct (N.eqb_spec c sep) as [->|Hc]; [set_solver|].
  rewrite IH; [done | set_solver].
Qed.

Lemma split_app_sep (sep : code_unit) (p s : jsstring) :
  sep ∉ p → split sep (p ++ sep :: s) = p :: split sep s.
Proof.
  induction p as [|c rest IH]; intros Hp; simpl.
  - by rewrite N.eqb_refl.
  - destruct (N.eqb_spec c sep) as [->|Hc]; [set_solver|].
    rewrite IH; [done | set_solver].
Qed.

(** Splitting undoes joining, for pieces without the separator. *)
Lemma split_join (sep : code_unit) (l : list jsstring) :
  l ≠ [] → Forall (λ p, sep ∉ p) l → split sep (join [sep] l) = l.
Proof.
  induction l as [|p [|p' rest] IH]; [done|..]; intros _ Hl.
  - apply split_whole. by inversion Hl.
  - inversion Hl as [|? ? Hp Hrest]; subst.
    change (join [sep] (p :: p' :: rest)) with (p ++ sep :: join [sep] (p' :: rest)).
    rewrite split_app_sep by done. f_equal. by apply IH.
Qed.

Lemma trim_start_fixed (s : jsstring) :
  (∀ c, head s = Some c → is_white_space c = false) → trim_start s = s.
Proof.
  destruct s as [|c rest]; [done|]. intros H. simpl.
  by rewrite (H c eq_refl).
Qed.

Lemma trim_fixed (s : jsstring) :
  (∀ c, head s = Some c ∨ last s = Some c → is_white_space c = false) →
  trim s = s.
Proof.
  intros H. unfold trim, trim_end.
  rewrite (trim_start_fixed s) by (intros c Hc; apply H; by left).
  rewrite trim_start_fixed; [apply reverse_involutive|].
  intros c Hc. rewrite head_reverse in Hc. apply H. by right.
Qed.

Lemma trim_units (s : jsstring) (c : code_unit) : c ∈ trim s → c ∈ s.
Proof.
  unfold trim, trim_end. rewrite elem_of_reverse. intros Hc.
  pose proof (elem_of_suffix _ _ _ Hc (trim_start_suffix _)) as Hc'.
  rewrite elem_of_reverse in Hc'.
  exact (elem_of_suffix _ _ _ Hc' (trim_start_suffix _)).
Qed.

Lemma fmap_fixed {A} (f : A → A) (l : list A) :
  Forall (λ x, f x = x) l → f <$> l = l.
Proof. induction 1; csimpl; congruence. Qed.

Lemma filter_all {A} (P : A → Prop) `{∀ x, Decision (P x)} (l : list A) :
  Forall P l → filter P l = l.
Proof.
  induction 1 as [|x rest Hx _ IH]; [done|].
  rewrite filter_cons_True by done. by rewrite IH.
Qed.

(** X15.  The list of questions is a fixed point of the extraction:
    the questions joined by line feeds and read again give the same
    list.  So a question never holds a line feed or outer white space,
    and reading a list again drops and reorders nothing. *)
Theorem followUpQuestions_stable (text : jsstring) :
  followUpQuestions (join [LF] (followUpQuestions text))
  = followUpQuestions text.
Proof.
  set (qs := followUpQuestions text).
  assert (Hlen : length qs ≤ 5).
  { unfold qs, followUpQuestions. rewrite length_take. lia. }
  assert (Hqs : Forall (λ q, 0 < length q ∧ trim q = q ∧ LF ∉ q) qs).
  { apply Forall_forall. intros q Hq.
    apply (λ H, elem_of_sublist _ _ _ H (sublist_take _ _)),
      list_elem_of_filter in Hq as [Hpos Hq].
    apply list_elem_of_fmap in Hq as (line & -> & Hline).
    split; [done|]. split.
    - apply trim_fixed, trim_ends.
    - intros HLF%trim_units.
      pose proof (split_pieces LF text) as Hpieces.
      rewrite Forall_forall in Hpieces. by apply (Hpieces line). }
  destruct qs as [|q0 qs'] eqn:Eqs; [done|]. rewrite <-Eqs in *.
  unfold followUpQuestions at 1.
  rewrite split_join;
    [|by rewrite Eqs|by eapply Forall_impl; [exact Hqs|]; intros ? (_ & _ & ?)].
  rewrite fmap_fixed
    by (eapply Forall_impl; [exact Hqs|]; by intros ? (_ & ? & _)).
  rewrite filter_all
    by (eapply Forall_impl; [exact Hqs|]; by intros ? (? & _ & _)).
  by apply take_ge.
Qed.

End Markers.

(** ** The head of the request *)

Section Head.

Lemma text_of_parts_present (ps : list value) :
  Forall (λ p, nullish p = false) ps →
  text_of_parts ps
  = join_values (lit " ") ((λ p, get_opt p "text") <$> filter is_text ps).
Proof.
  intros Hps. unfold text_of_parts.
  rewrite (mapM_all_Ok _
             (λ p, (p, strict_equals (get_opt p "type") (VStr (lit "text"))))).
  2:{ eapply Forall_impl; [exact Hps|]. intros p Hp. simpl.
      by rewrite (get_present _ _ Hp). }
  cbn [mbind result_bind].
  assert (Hsel : fst <$> filter (λ pf : value * bool, pf.2 = true)
                   ((λ p, (p, strict_equals (get_opt p "type") (VStr (lit "text"))))
                    <$> ps)
                 = filter is_text ps).
  { clear Hps. induction ps as [|p rest IH]; [done|]. csimpl.
    rewrite !filter_cons. simpl.
    repeat case_decide; unfold is_text in *; try done; csimpl; by rewrite IH. }
  rewrite Hsel.
  rewrite (mapM_all_Ok _ (λ p, get_opt p "text")); [done|].
  apply Forall_forall. intros p Hp%list_elem_of_filter.
  rewrite Forall_forall in Hps. apply get_present, Hps, Hp.
Qed.

(** X16.  When the body has no truthy [query] and the last message has
    an array of [parts] without a [null] among them, the query is made
    of the [text] fields of the parts of type ['text'], joined by a
    space, and the [content] of the message is not read: when these
    fields are strings the query is their concatenation; a message
    whose parts hold no text is answered with status 400, whatever its
    [content]; and when a field cannot be rendered as text the request
    is answered with status 500 and the text of the [TypeError]. *)
Theorem parts_decide_query (body : Body) (lastMessage : value) (ps : list value) :
  truthy (b_query body) = false →
  last (b_messages body) = Some lastMessage →
  get lastMessage "parts" = Ok (VArr ps) →
  Forall (λ p, nullish p = false) ps →
  let texts := (λ p, get_opt p "text") <$> filter is_text ps in
  extract_query body = VStr <$> join_values (lit " ") texts
  ∧ (∀ strings, texts = VStr <$> strings →
       extract_query body = Ok (VStr (JsString.join (lit " ") strings)))
  ∧ (filter is_text ps = [] →
     ∀ e, POST_head (Ok body) e = Respond 400 (lit "Query is required") None)
  ∧ ((∃ err, join_values (lit " ") texts = Throw err) →
     ∀ e, POST_head (Ok body) e
          = Respond 500 (lit "Search failed")
              (Some (lit "Cannot convert object to primitive value"))).
Proof.
  intros Hq Hlast Hparts Hps texts.
  assert (Hquery : extract_query body = VStr <$> join_values (lit " ") texts).
  { unfold extract_query. rewrite Hq, Hlast, Hparts.
    destruct (b_messages body) as [|m ms]; [done|].
    rewrite bool_decide_true by (simpl; lia).
    cbn [negb andb mbind result_bind truthy].
    by rewrite text_of_parts_present. }
  split; [done|]. split; [|split].
  - intros strings Hstrings. by rewrite Hquery, Hstrings, join_values_strings.
  - intros Hnone e. unfold POST_head, texts in *.
    cbn [mbind result_bind]. rewrite Hquery, Hnone. done.
  - intros [err Herr] e. unfold POST_head.
    cbn [mbind result_bind]. rewrite Hquery, Herr.
    by apply join_values_Throw in Herr as ->.
Qed.

(** X17.  When the body has no truthy [query], a [null] or [undefined]
    among the parts of the last message makes the request fail with
    status 500 and the error ['Search failed'], with the message of the
    [TypeError] of reading [type]; the configuration is not looked
    at. *)
Theorem null_part_fails_request (body : Body) (lastMessage : value) (ps : list value) :
  truthy (b_query body) = false →
  last (b_messages body) = Some lastMessage →
  get lastMessage "parts" = Ok (VArr ps) →
  Exists (λ p, nullish p = true) ps →
  ∃ of_what, of_what ∈ ["null"; "undefined"]
    ∧ ∀ e, POST_head (Ok body) e
           = Respond 500 (lit "Search failed")
               (Some (message (TypeError_read of_what "type"))).
Proof.
  intros Hq Hlast Hparts Hps.
  destruct (mapM_first_Throw
              (λ p, t ← get p "type";
                    Ok (p, strict_equals t (VStr (lit "text")))) ps)
    as (p & err & _ & Hp & Hall).
  { eapply Exists_impl; [exact Hps|]. intros [] Hx; try done; by eexists. }
  assert (Herr : ∃ of_what, of_what ∈ ["null"; "undefined"]
                            ∧ err = TypeError_read of_what "type").
  { destruct p; simpl in Hp; try done; injection Hp as <-.
    - exists "undefined". split; [set_solver | done].
    - exists "null". split; [set_solver | done]. }
  destruct Herr as (of_what & Hin & ->).
  exists of_what. split; [done|]. intros e.
  unfold POST_head, extract_query. cbn [mbind result_bind].
  rewrite Hq, Hlast, Hparts.
  destruct (b_messages body) as [|m ms]; [done|].
  rewrite bool_decide_true by (simpl; lia).
  cbn [negb andb mbind result_bind truthy].
  unfold text_of_parts. rewrite Hall. done.
Qed.

(** X18.  The flags of [check-env] do not tell whether [POST] will
    serve a request: they do not depend on [SEARXNG_BASE_URL], without
    which [POST] answers a request that has a query and both keys with
    status 500; and of the variables they report, [POST] checks the two
    keys only before it opens the stream. *)
Theorem check_env_misses_searx (e : gmap string jsstring) (request : result Body)
    (q : value) :
  request ≫= extract_query = Ok q →
  truthy q = true →
  truthy (process_env e "FIRECRAWL_API_KEY") = true →
  truthy (process_env e "OPENAI_API_KEY") = true →
  let e' := delete "SEARXNG_BASE_URL" e in
  CheckEnv.GET e' = CheckEnv.GET e
  ∧ POST_head request e'
    = Respond 500 (lit "SearxNG base URL not configured") None
  ∧ (∀ name v,
       name ∉ ["FIRECRAWL_API_KEY"; "OPENAI_API_KEY"; "SEARXNG_BASE_URL"] →
       POST_head request (<[name := v]> e) = POST_head request e).
Proof.
  intros Hquery Hq Hfire Hopen e'. split; [|split].
  - unfold CheckEnv.GET, process_env, e'. by rewrite !lookup_delete_ne.
  - unfold POST_head. rewrite Hquery, Hq.
    unfold process_env, e' in *.
    rewrite !lookup_delete_ne by done. rewrite Hfire, Hopen.
    by rewrite lookup_delete_eq.
  - intros name v Hname. unfold POST_head, process_env.
    rewrite !lookup_insert_ne by set_solver. done.
Qed.

(** ** Endpoints *)

Lemma replace_trailing_slash_snoc (s : jsstring) (c : JsString.code_unit) :
  replace_trailing_slash (s ++ [c]) = if (c =? SLASH)%N then s else s ++ [c].
Proof.
  induction s as [|x s IH]; simpl.
  - by destruct (c =? SLASH)%N.
  - rewrite bool_decide_false by (by destruct s).
    rewrite andb_false_r, IH. by destruct (c =? SLASH)%N.
Qed.

Lemma slice_trailing_slash_snoc (s : jsstring) (c : JsString.code_unit) :
  slice_trailing_slash (s ++ [c]) = if (c =? SLASH)%N then s else s ++ [c].
Proof.
  unfold slice_trailing_slash. rewrite last_snoc.
  destruct (c =? SLASH)%N; [|done].
  rewrite length_app. simpl.
  replace (length s + 1 - 1) with (length s) by lia.
  by rewrite take_app_length.
Qed.

(** X19.  The two ways in which the route drops a trailing slash of the
    Firecrawl base address agree on every string.  A base address given
    with one trailing slash yields the same scrape and search endpoints
    as without it; only one slash is dropped. *)
Theorem endpoints_trailing_slash (e : gmap string jsstring) (b : jsstring) :
  (∀ s, replace_trailing_slash s = slice_trailing_slash s)
  ∧ (b ≠ [] → last b ≠ Some SLASH →
     let plain := <["FIRECRAWL_BASE_URL" := b]> e in
     let slashed := <["FIRECRAWL_BASE_URL" := b ++ [SLASH]]> e in
     let doubled := <["FIRECRAWL_BASE_URL" := b ++ [SLASH; SLASH]]> e in
     firecrawlScrapeEndpoint plain = b ++ lit "/v1/scrape"
     ∧ firecrawlScrapeEndpoint slashed = b ++ lit "/v1/scrape"
     ∧ searchEndpoint plain = b ++ lit "/v2/search"
     ∧ searchEndpoint slashed = b ++ lit "/v2/search"
     ∧ firecrawlScrapeEndpoint doubled = b ++ [SLASH] ++ lit "/v1/scrape").
Proof.
  assert (Hsame : ∀ s, replace_trailing_slash s = slice_trailing_slash s).
  { intros s. destruct s as [|x s] using rev_ind; [done|].
    by rewrite replace_trailing_slash_snoc, slice_trailing_slash_snoc. }
  split; [done|]. intros Hb Hlast plain slashed doubled.
  assert (Hplain : replace_trailing_slash b = b).
  { destruct b as [|c b _] using rev_ind; [done|].
    rewrite replace_trailing_slash_snoc. rewrite last_snoc in Hlast.
    destruct (N.eqb_spec c SLASH) as [->|]; done. }
  unfold firecrawlScrapeEndpoint, searchEndpoint, firecrawlBaseUrl, env_or,
    plain, slashed, doubled.
  rewrite !lookup_insert_eq, <-!Hsame.
  rewrite !bool_decide_false by (by destruct b).
  change (b ++ [SLASH; SLASH]) with (b ++ [SLASH] ++ [SLASH]).
  rewrite (app_assoc b [SLASH] [SLASH]).
  rewrite !replace_trailing_slash_snoc, Hplain, N.eqb_refl.
  by rewrite <-!app_assoc.
Qed.

End Head.

(** ** Progress *)

Section Progress.

Variable url_hostname : value → option jsstring.
Variable selectRelevantContent : value → jsstring → nat → result jsstring.
Variable detectCompanyTicker : jsstring → value.
Variable Number : jsstring → number.

Local Notation "'run'" :=
  (execute url_hostname selectRelevantContent detectCompanyTicker Number).

(** X20.  What the client sees of the progress of a request is fixed
    by the bundle it receives.  Without a bundle the statuses are
    [status-1] and [status-2], no ticker is written and the stream has
    one error part.  With a bundle, which is then the only one, the
    statuses [status-3a] and [status-2b] are written exactly when the
    bundle has sources, [status-3] closes the list, and the ticker part
    is written once, exactly when [detectCompanyTicker] returns a truthy
    symbol for the query. *)
Theorem progress_follows_bundle (w : World) :
  match bundles (run w) with
  | [] =>
      statuses (run w) = [ "status-1"; "status-2" ]
      ∧ tickers (run w) = []
      ∧ length (error_fields (run w)) = 1
  | [ b ] =>
      statuses (run w)
      = (if sources b is []
         then [ "status-1"; "status-2"; "status-3" ]
         else [ "status-1"; "status-2"; "status-3a"; "status-2b"; "status-3" ])
      ∧ tickers (run w)
        = (if truthy (detectCompanyTicker (query w))
           then [ detectCompanyTicker (query w) ] else [])
  | _ => False
  end.
Proof.
  assert (Hfailed : ∀ e,
            run w =
              [ Write (data_status "status-1" "Starting search...");
                Write (data_status "status-2" "Searching for relevant sources...");
                FetchSearch general; FetchSearch news; FetchSearch images;
                Write (error_part e) ] →
            match bundles (run w) with
            | [] =>
                statuses (run w) = [ "status-1"; "status-2" ]
                ∧ tickers (run w) = []
                ∧ length (error_fields (run w)) = 1
            | _ => False
            end).
  { intros e ->. by destruct (error_part_data_error e) as (? & ? & ? & ->). }
  destruct (performSourceSearch (searx w general)) as [webData|e] eqn:Hsearch.
  2:{ specialize (Hfailed e (execute_search_failed _ _ _ _ w e Hsearch)).
      by destruct (bundles (run w)). }
  destruct (normalize url_hostname webData (bestEffort (searx w news))
              (bestEffort (searx w images))) as [found|e] eqn:Hfound.
  2:{ specialize (Hfailed e (execute_normalize_failed _ _ _ _ w webData e
                              Hsearch Hfound)).
      by destruct (bundles (run w)). }
  destruct (observe_found url_hostname selectRelevantContent detectCompanyTicker
              Number w webData found Hsearch Hfound) as (-> & _).
  destruct (observe_rest url_hostname selectRelevantContent detectCompanyTicker
              Number w webData found Hsearch Hfound) as (_ & _ & -> & ->).
  split; [|done]. simpl.
  pose proof (length_enrich Number w (sources found)) as Hlen.
  destruct (sources found) as [|s rest] eqn:Hsrcs; [done|].
  rewrite bool_decide_true by (simpl; lia).
  by destruct (enrich Number w (s :: rest)).
Qed.

End Progress.


(** ** The conversation preview *)

Section Preview.

Variable url_hostname : value → option jsstring.
Variable selectRelevantContent : value → jsstring → nat → result jsstring.
Variable detectCompanyTicker : jsstring → value.
Variable Number : jsstring → number.

Local Notation "'run'" :=
  (execute url_hostname selectRelevantContent detectCompanyTicker Number).

Lemma plain_new_Error (text : jsstring) :
  text ≠ [] → plain (new_Error text).
Proof. by split. Qed.

Lemma get_Throw_plain (v : value) (k : string) (e : thrown) :
  get v k = Throw e → plain e.
Proof.
  destruct v; try done; intros [= <-]; apply plain_new_Error;
    unfold TypeError_read; intros [H _]%app_eq_nil; discriminate H.
Qed.

Lemma to_string_Throw_plain (v : value) (e : thrown) :
  to_string v = Throw e → plain e.
Proof. intros ->%to_string_Throw. by apply plain_new_Error. Qed.

Lemma text_of_parts_plain (ps : list value) (e : thrown) :
  text_of_parts ps = Throw e → plain e.
Proof.
  unfold text_of_parts.
  destruct (mapM _ ps) as [flagged|e'] eqn:Hflagged; cbn [mbind result_bind].
  - cbv zeta.
    destruct (mapM (λ p, get p "text") _) as [texts|e'] eqn:Htexts;
      cbn [mbind result_bind].
    + intros ->%join_values_Throw. by apply plain_new_Error.
    + intros [= ->]. apply mapM_Throw_inv in Htexts as (p & _ & Hp).
      by apply get_Throw_plain in Hp.
  - intros [= ->]. apply mapM_Throw_inv in Hflagged as (p & _ & Hp).
    destruct (get p "type") as [t|e'] eqn:Ht; cbn [mbind result_bind] in Hp;
      [done|]. injection Hp as ->. by apply get_Throw_plain in Ht.
Qed.

Lemma preview_line_plain (m : value) (e : thrown) :
  preview_line m = Throw e → plain e.
Proof.
  unfold preview_line.
  destruct (get m "parts") as [parts|e'] eqn:Hparts; cbn [mbind result_bind];
    [|intros [= ->]; by apply get_Throw_plain in Hparts].
  assert (Hrest : ∀ content,
            (role ← get m "role"; shown ← to_string role;
             Ok (shown ++ lit ": " ++ content)) = Throw e → plain e).
  { intros content.
    destruct (get m "role") as [role|e'] eqn:Hrole; cbn [mbind result_bind];
      [|intros [= ->]; by apply get_Throw_plain in Hrole].
    destruct (to_string role) as [shown|e'] eqn:Hshown; cbn [mbind result_bind];
      [done|]. intros [= ->]. by apply to_string_Throw_plain in Hshown. }
  destruct (truthy parts); [|by apply Hrest].
  destruct parts as [| | | | |ps| |];
    try (cbn [mbind result_bind]; intros [= <-]; apply plain_new_Error;
         unfold TypeError_not_function; intros [H _]%app_eq_nil; discriminate H).
  destruct (text_of_parts ps) as [content|e'] eqn:Hcontent; cbn [mbind result_bind];
    [by apply Hrest|]. intros [= ->]. by apply text_of_parts_plain in Hcontent.
Qed.

(** X21.  On a follow-up request, a [null] among the messages makes the
    conversation preview throw after the answer was generated: the
    chunks of the answer are on the stream, the follow-up generation is
    not called, and the trace ends with an error part that carries the
    text of the [TypeError], without suggestion and status code. *)
Theorem preview_failure_after_answer (w : World) (webData : value)
    (found : SearchBundle) (context fullAnswer : jsstring) :
  performSourceSearch (searx w general) = Ok webData →
  normalize url_hostname webData (bestEffort (searx w news))
    (bestEffort (searx w images)) = Ok found →
  let srcs := if bool_decide (0 < length (sources found))
              then enrich Number w (sources found) else sources found in
  context_for selectRelevantContent w srcs = Ok context →
  answer_text w context = Ok fullAnswer →
  isFollowUp w = true →
  Exists (λ m, nullish m = true) (messages w) →
  ∃ e, conversationPreview w = Throw e
       ∧ message e ≠ []
       ∧ contexts (run w) = [ context ]
       ∧ text_deltas (run w) = answer_deltas w context
       ∧ followup_calls (run w) = []
       ∧ last (run w) = Some (Write (data_error (message e) None None)).
Proof.
  intros Hsearch Hfound srcs Hreached Hanswer Hfollow Hnull.
  destruct (mapM_first_Throw preview_line (messages w))
    as (m & e & _ & Hm & Hall).
  { eapply Exists_impl; [exact Hnull|]. intros [] Hx; try done; by eexists. }
  destruct (preview_line_plain m e Hm) as [Hpart Htext].
  assert (Hpreview : conversationPreview w = Throw e).
  { unfold conversationPreview. by rewrite Hfollow, Hall. }
  assert (Hend : context_for selectRelevantContent w srcs ≫= answer_for w = Throw e).
  { rewrite Hreached. cbn [mbind result_bind]. unfold answer_for.
    rewrite Hanswer. cbn [mbind result_bind]. by rewrite Hpreview. }
  exists e. split; [done|]. split; [done|].
  destruct (observe_found url_hostname selectRelevantContent detectCompanyTicker
              Number w webData found Hsearch Hfound) as (_ & _ & -> & -> & _).
  destruct (observe_rest url_hostname selectRelevantContent detectCompanyTicker
              Number w webData found Hsearch Hfound) as (-> & _).
  fold srcs. rewrite Hend, Hreached. repeat split; try done.
  rewrite (execute_found url_hostname selectRelevantContent detectCompanyTicker
             Number w webData found Hsearch Hfound).
  fold srcs.
  destruct (closing_ends_in_error selectRelevantContent detectCompanyTicker
              w srcs e Hend) as [before ->].
  by rewrite !app_assoc, last_snoc, Hpart.
Qed.

End Preview.
(** ** Samples of the further properties *)

(** The follow-up generation of [calm] replaced by one that throws. *)
Lemma followUp_down_sample :
  followups (run (with_followUp calm (λ _, Throw (new_Error (lit "overloaded"))))) = []
  ∧ error_fields (run (with_followUp calm (λ _, Throw (new_Error (lit "overloaded")))))
    = error_fields (run calm).
Proof.
  destruct (followUp_failure_swallowed hostname selector ticker to_number calm
              (λ _, Throw (new_Error (lit "overloaded"))))
    as (Herr & _ & _ & _ & Hnone).
  split; [|exact Herr]. apply Hnone. intros full. by eexists.
Defined.

(** The answer generation refused: the sources are on the stream and no
    follow-up is asked for. *)
Lemma answer_refused_sample :
  length (bundles (run double_failure)) = 1
  ∧ followup_calls (run double_failure) = [].
Proof.
  edestruct (answer_failure_keeps_sources hostname selector ticker to_number
               double_failure results) as (Hb & _ & _ & Hc & _);
    [reflexivity | vm_compute; reflexivity | vm_compute; reflexivity
     | reflexivity |].
  split; [|exact Hc]. unfold run. by rewrite Hb.
Defined.

Lemma calm_answer_last :
  ∃ before context after,
    run calm = before ++ StreamText context :: after
    ∧ length (bundles before) = 1 ∧ bundles after = [].
Proof.
  edestruct (answer_comes_last hostname selector ticker to_number calm results)
    as (before & after & Hrun & Hb & _ & _ & _ & _ & _ & Hafter & _);
    [reflexivity | vm_compute; reflexivity | vm_compute; reflexivity |].
  exists before. eexists. exists after. split; [exact Hrun|]. split; [by rewrite Hb | exact Hafter].
Defined.

Lemma calm_titles :
  ∃ found, normalize hostname results VUndefined VUndefined = Ok found
           ∧ Forall (λ s, truthy (s_title s) = true ∧ s_markdown s = VUndefined)
               (sources found).
Proof.
  assert (H : ∃ found, normalize hostname results VUndefined VUndefined = Ok found).
  { eexists. vm_compute. reflexivity. }
  destruct H as [found H]. exists found. split; [exact H|].
  exact (proj1 (normalize_fills_titles hostname _ _ _ found H)).
Defined.

Lemma bare_address_kept :
  ∃ s, web_source hostname Edge.bare = Ok (Some s)
       ∧ s_url s = VStr (lit "example.org/paris")
       ∧ s_favicon s = VUndefined ∧ s_siteName s = VUndefined.
Proof.
  apply (web_source_unparsed_url hostname Edge.bare (VStr (lit "example.org/paris")));
    vm_compute; reflexivity.
Defined.


Lemma no_array_sample : contexts (run Edge.no_array) = [ [] ].
Proof.
  edestruct (no_results_empty_context hostname selector ticker to_number
               Edge.no_array (VObj [])) as (_ & _ & _ & H & _);
    [reflexivity | reflexivity | vm_compute; reflexivity | exact H].
Defined.

Lemma scraper_down_sample :
  enrich to_number Edge.scraper_down two_sources = two_sources.
Proof.
  apply (proj2 (enrich_nothing_fetched to_number Edge.scraper_down two_sources)).
  intros i response [= <-]. reflexivity.
Defined.

Lemma two_sources_enriched :
  enrich to_number calm two_sources !! 0
  = Some match allSettled calm (targets to_number calm two_sources) !! 0 with
         | Some (Ok v) =>
             merge_into v (default (Build_Source VUndefined VUndefined VUndefined
                                      VUndefined VUndefined VUndefined VUndefined
                                      VUndefined)
                             (two_sources !! 0))
         | _ => default (Build_Source VUndefined VUndefined VUndefined
                           VUndefined VUndefined VUndefined VUndefined VUndefined)
                  (two_sources !! 0)
         end.
Proof.
  apply (enrich_distinct_urls to_number calm two_sources); [|reflexivity].
  intros j k sj sk Hjk Hj Hk.
  destruct j as [|[|j]], k as [|[|k]]; try lia; try discriminate Hj;
    try discriminate Hk.
  injection Hj as <-. injection Hk as <-. reflexivity.
Defined.

Lemma twins_second_untouched :
  enrich to_number calm Edge.twins !! 1 = Edge.twins !! 1.
Proof.
  etrans; [|symmetry].
  - eapply (enrich_duplicate_untouched to_number calm Edge.twins 0 1);
      [lia | reflexivity | reflexivity | reflexivity].
  - reflexivity.
Defined.

Lemma gateway_failure_text :
  error_fields (run gateway_failure) = [ lit "SearxNG search error: Bad Gateway" ].
Proof.
  destruct (search_status_not_mapped hostname selector ticker to_number
              gateway_failure _ eq_refl eq_refl)
    as (text & Hrun & _ & _ & Hshown).
  vm_compute in Hshown. specialize (Hshown eq_refl). subst text.
  unfold run. rewrite Hrun. reflexivity.
Defined.

Lemma two_sources_context :
  prepare_context selector (lit "capital of France") two_sources ≠ Ok [].
Proof.
  intros H.
  apply (proj1 (proj2 (context_markers_distinct selector (lit "capital of France")
                         (lit "capital of France") two_sources))) in H.
  discriminate H.
Defined.

Lemma file_body_refused :
  POST_head (Ok Edge.file_body) ∅ = Respond 400 (lit "Query is required") None.
Proof.
  edestruct (parts_decide_query Edge.file_body) as (_ & _ & H & _);
    [reflexivity | reflexivity | reflexivity | repeat constructor |].
  apply H. reflexivity.
Defined.

Lemma null_part_body_fails :
  ∃ of_what, of_what ∈ ["null"; "undefined"]
    ∧ ∀ e, POST_head (Ok Edge.null_part_body) e
           = Respond 500 (lit "Search failed")
               (Some (message (TypeError_read of_what "type"))).
Proof.
  eapply (null_part_fails_request Edge.null_part_body);
    [reflexivity | reflexivity | reflexivity |].
  apply Exists_cons_tl, Exists_cons_hd. reflexivity.
Defined.

Lemma configured_without_searx :
  CheckEnv.GET (delete "SEARXNG_BASE_URL" Edge.configured)
  = CheckEnv.GET Edge.configured
  ∧ POST_head Edge.asked (delete "SEARXNG_BASE_URL" Edge.configured)
    = Respond 500 (lit "SearxNG base URL not configured") None.
Proof.
  destruct (check_env_misses_searx Edge.configured Edge.asked
              (VStr (lit "capital of France")))
    as (H1 & H2 & _); [reflexivity | reflexivity | vm_compute; reflexivity
                       | vm_compute; reflexivity |].
  by split.
Defined.

Lemma firecrawl_3002_endpoint :
  firecrawlScrapeEndpoint (<["FIRECRAWL_BASE_URL" := lit "http://firecrawl:3002/"]> ∅)
  = lit "http://firecrawl:3002/v1/scrape".
Proof.
  destruct (proj2 (endpoints_trailing_slash ∅ (lit "http://firecrawl:3002")))
    as (_ & H & _); [done | vm_compute; discriminate | exact H].
Defined.

Lemma null_message_sample :
  ∃ e, conversationPreview Edge.null_message = Throw e
       ∧ message e ≠ []
       ∧ text_deltas (run Edge.null_message) = [ lit "Paris"; lit " [1]" ]
       ∧ followup_calls (run Edge.null_message) = [].
Proof.
  edestruct (preview_failure_after_answer hostname selector ticker to_number
               Edge.null_message results)
    as (e & Hpreview & Htext & _ & Hdeltas & Hcalls & _);
    [reflexivity | vm_compute; reflexivity | vm_compute; reflexivity
     | reflexivity | reflexivity
     | do 2 apply Exists_cons_tl; apply Exists_cons_hd; reflexivity |].
  exists e. split; [exact Hpreview|]. split; [exact Htext|].
  split; [exact Hdeltas | exact Hcalls].
Defined.
